(** * vks.py: shared review queue of the VK profile review bot

    A shallow embedding of the coordination core of [vks.py]: the text
    handling behind [profiles.txt] ([load_profiles], [remove_profile]), the
    process-wide retirement set [reviewed_globally], the per-user [Session]
    objects kept in the [sessions] dict, and the Telegram handlers
    [send_next], [cmd_start], [cmd_skip], [cmd_status], [cmd_accepted] and
    [on_callback].

    Modelling conventions.
    - A Python [str] is a [string]; its characters stand for the code points
      U+0000..U+00FF.
    - [profiles.txt] is [option string]: [None] when [Path.exists()] is
      false, otherwise the text that [read_text] returns.
    - [reviewed_globally] is a [gset string], [sessions] a [gmap Z Session].
    - [random.shuffle] draws its indices from an explicit list of naturals.
    - The handlers are state-passing functions that also return the
      messages they send.  The application runs them one update at a time,
      so a run is a list of events folded over the state.  Sending and the
      avatar download are taken to succeed; the download, the "loading"
      notice and the temporary directory of [send_next] do not touch the
      modelled state and are left out.
    - A callback query comes with its data already split at [":"]. *)

From Stdlib Require Import Ascii String.
From stdpp Require Import gmap strings list fin_maps.

(** ** Python string primitives *)

Module PyStr.

(** Line boundaries of [str.splitlines] below U+0100. *)
Definition is_linebreak (c : ascii) : bool :=
  match nat_of_ascii c with
  | 10 | 11 | 12 | 13 | 28 | 29 | 30 | 133 => true
  | _ => false
  end.

(** [str.isspace] below U+0100; these are the characters that
    [str.strip()] removes. *)
Definition is_space (c : ascii) : bool :=
  match nat_of_ascii c with
  | 9 | 10 | 11 | 12 | 13 | 28 | 29 | 30 | 31 | 32 | 133 | 160 => true
  | _ => false
  end.

Definition LF : ascii := ascii_of_nat 10.
Definition CR : ascii := ascii_of_nat 13.
Definition BAR : ascii := "|"%char.

Definition is_empty (s : string) : bool :=
  match s with EmptyString => true | String _ _ => false end.

(** [s.splitlines()], scanning with the line read so far in [cur].  A
    line break closes the current line; ["\r\n"] counts as one break; a
    last line without a break is kept when it is not empty. *)
Fixpoint splitlines_from (cur s : string) : list string :=
  match s with
  | EmptyString => if is_empty cur then [] else [cur]
  | String c s' =>
      if is_linebreak c then
        cur ::
          match s' with
          | String c' s'' =>
              if Ascii.eqb c CR && Ascii.eqb c' LF
              then splitlines_from "" s''
              else splitlines_from "" s'
          | EmptyString => splitlines_from "" s'
          end
      else splitlines_from (cur +:+ String c "") s'
  end.

Definition splitlines (s : string) : list string := splitlines_from "" s.

(** [s.lstrip()], [s.rstrip()] and [s.strip()]. *)
Fixpoint lstrip (s : string) : string :=
  match s with
  | EmptyString => ""
  | String c s' => if is_space c then lstrip s' else s
  end.

Fixpoint rstrip (s : string) : string :=
  match s with
  | EmptyString => ""
  | String c s' =>
      let r := rstrip s' in
      if is_space c && is_empty r then "" else String c r
  end.

Definition strip (s : string) : string := lstrip (rstrip s).

(** [s.split("|")[0]]: the text before the first bar. *)
Fixpoint split_bar_0 (s : string) : string :=
  match s with
  | EmptyString => ""
  | String c s' => if Ascii.eqb c BAR then "" else String c (split_bar_0 s')
  end.

(** ["\n".join(ls)]. *)
Fixpoint join_lf (ls : list string) : string :=
  match ls with
  | [] => ""
  | [l] => l
  | l :: ls' => l +:+ String LF (join_lf ls')
  end.

Fixpoint has_linebreak (s : string) : bool :=
  match s with
  | EmptyString => false
  | String c s' => is_linebreak c || has_linebreak s'
  end.

End PyStr.

Import PyStr.

(** ** Sessions and global state *)

(** [class Session]: the pending queue, the item being shown and the list
    of approved profiles. *)
Record Session := mkSession {
  queue : list string;
  current : option string;
  accepted : list string
}.

(** [Session()] as built by [__init__]. *)
Definition new_session : Session :=
  {| queue := []; current := None; accepted := [] |}.

(** The module-level globals together with the content of [profiles.txt]. *)
Record State := mkState {
  reviewed_globally : gset string;
  sessions : gmap Z Session;
  profiles_file : option string
}.

Definition set_sessions (m : gmap Z Session) (st : State) : State :=
  {| reviewed_globally := reviewed_globally st;
     sessions := m;
     profiles_file := profiles_file st |}.

Definition set_file (f : option string) (st : State) : State :=
  {| reviewed_globally := reviewed_globally st;
     sessions := sessions st;
     profiles_file := f |}.

(** Assignment to a field of the session object stored under [user_id]. *)
Definition set_session (user_id : Z) (s : Session) (st : State) : State :=
  set_sessions (<[user_id := s]> (sessions st)) st.

(** [get_session]: the stored session, created empty on first access. *)
Definition get_session (user_id : Z) (st : State) : Session * State :=
  match sessions st !! user_id with
  | Some s => (s, st)
  | None => (new_session, set_session user_id new_session st)
  end.

(** What a reader of the dict sees for [user_id], without creating it. *)
Definition session_of (user_id : Z) (st : State) : Session :=
  default new_session (sessions st !! user_id).

(** The process as it starts: nothing reviewed, no session. *)
Definition init (file : option string) : State :=
  {| reviewed_globally := ∅; sessions := ∅; profiles_file := file |}.

(** ** [random.shuffle] *)

(** [x[i], x[j] = x[j], x[i]]. *)
Definition swap {A} (i j : nat) (x : list A) : list A :=
  match x !! i, x !! j with
  | Some a, Some b => <[j := a]> (<[i := b]> x)
  | _, _ => x
  end.

(** [for i in reversed(range(1, len(x))): j = randbelow(i + 1); swap].
    The draws come from [rnd], reduced modulo [i + 1]; a missing draw
    counts as [0]. *)
Fixpoint shuffle_loop {A} (i : nat) (rnd : list nat) (x : list A) : list A :=
  match i with
  | 0 => x
  | S i' => shuffle_loop i' (tail rnd) (swap i (hd 0 rnd mod S i) x)
  end.

Definition shuffle {A} (rnd : list nat) (x : list A) : list A :=
  shuffle_loop (length x - 1) rnd x.

(** ** The profile file *)

(** The key that both file routines compare: [l.split("|")[0].strip()]. *)
Definition line_url (l : string) : string := strip (split_bar_0 l).

(** One iteration of the loop of [load_profiles]: the url appended for
    [line], if any. *)
Definition load_line (reviewed : gset string) (line : string) : list string :=
  let line := strip line in
  if is_empty line then []
  else
    let url := line_url line in
    if negb (is_empty url) && bool_decide (url ∉ reviewed) then [url] else [].

(** The list built by [load_profiles] before it is shuffled. *)
Definition load_result (reviewed : gset string) (text : string) : list string :=
  flat_map (load_line reviewed) (splitlines text).

Definition load_profiles (rnd : list nat) (st : State) : list string :=
  match profiles_file st with
  | None => []
  | Some text => shuffle rnd (load_result (reviewed_globally st) text)
  end.

(** The text written back by [remove_profile]. *)
Definition remove_text (url text : string) : string :=
  let lines := splitlines text in
  let filtered := filter (λ l, line_url l ≠ url) lines in
  join_lf filtered +:+ String LF "".

Definition remove_profile (url : string) (st : State) : State :=
  match profiles_file st with
  | None => st
  | Some text => set_file (Some (remove_text url text)) st
  end.

(** ** Retirement *)

(** [list.remove(url)] guarded by [url in list]: drops the first
    occurrence only. *)
Fixpoint remove_first (url : string) (l : list string) : list string :=
  match l with
  | [] => []
  | x :: l' => if decide (x = url) then l' else x :: remove_first url l'
  end.

(** The body of the loop of [mark_reviewed] for one session. *)
Definition purge (url : string) (s : Session) : Session :=
  {| queue := remove_first url (queue s);
     current := if decide (current s = Some url) then None else current s;
     accepted := accepted s |}.

Definition mark_reviewed (url : string) (st : State) : State :=
  {| reviewed_globally := reviewed_globally st ∪ {[url]};
     sessions := purge url <$> sessions st;
     profiles_file := profiles_file st |}.

(** ** Handlers *)

Inductive Message :=
| ReviewComplete (user_id : Z) (approved : list string)
| Presentation (user_id : Z) (url : string) (left_in_queue : nat)
| NoProfiles (user_id : Z)
| Started (user_id : Z) (count : nat)
| StatusReport (user_id : Z) (queued approved reviewed : nat)
| AcceptedReport (user_id : Z) (approved : list string)
| Added (user_id : Z) (url : string)
| Removed (user_id : Z)
| NotYourSession (from_id : Z).

(** [send_next]: report completion on an empty queue, otherwise make the
    head of the queue current and send it with the two buttons. *)
Definition send_next (user_id : Z) (st : State) : State * list Message :=
  let '(session, st) := get_session user_id st in
  match queue session with
  | [] => (st, [ReviewComplete user_id (accepted session)])
  | url :: _ =>
      (set_session user_id
         {| queue := queue session; current := Some url;
            accepted := accepted session |} st,
       [Presentation user_id url (length (queue session))])
  end.

(** Lines 253-255 of [cmd_start]. *)
Definition restart (profiles : list string) : Session :=
  {| queue := profiles; current := None; accepted := [] |}.

Definition cmd_start (user_id : Z) (rnd : list nat) (st : State)
  : State * list Message :=
  let '(_, st) := get_session user_id st in
  let profiles := load_profiles rnd st in
  match profiles with
  | [] => (st, [NoProfiles user_id])
  | _ :: _ =>
      let st := set_session user_id (restart profiles) st in
      let '(st, out) := send_next user_id st in
      (st, Started user_id (length profiles) :: out)
  end.

Definition cmd_skip (user_id : Z) (st : State) : State * list Message :=
  let '(session, st) := get_session user_id st in
  let st :=
    match queue session with
    | [] => st
    | _ :: rest =>
        set_session user_id
          {| queue := rest; current := current session;
             accepted := accepted session |} st
    end in
  send_next user_id st.

Definition cmd_status (user_id : Z) (st : State) : State * list Message :=
  let '(session, st) := get_session user_id st in
  (st, [StatusReport user_id (length (queue session))
          (length (accepted session)) (size (reviewed_globally st))]).

Definition cmd_accepted (user_id : Z) (st : State) : State * list Message :=
  let '(session, st) := get_session user_id st in
  (st, [AcceptedReport user_id (accepted session)]).

(** A callback query after [query.data.split(":")]: the pressing user, the
    action [parts[0]], and [int(parts[1])] when there is a second part. *)
Record CallbackQuery := mkQuery {
  from_user : Z;
  action : string;
  owner_part : option Z
}.

(** The data that [send_next] attaches to its two buttons. *)
Definition button (act : string) (user_id : Z) : CallbackQuery :=
  {| from_user := user_id; action := act; owner_part := Some user_id |}.

(** Python truth value of [session.current]. *)
Definition truthy (o : option string) : option string :=
  match o with
  | Some url => if is_empty url then None else Some url
  | None => None
  end.

Definition on_callback (q : CallbackQuery) (st : State) : State * list Message :=
  let owner_id := default (from_user q) (owner_part q) in
  if decide (from_user q = owner_id) then
    let '(session, st) := get_session owner_id st in
    match truthy (current session) with
    | None => (st, [])
    | Some url =>
        let '(st, out) :=
          if decide (action q = "yes") then
            let st :=
              set_session owner_id
                {| queue := queue session; current := current session;
                   accepted := accepted session ++ [url] |} st in
            (mark_reviewed url st, [Added owner_id url])
          else if decide (action q = "no") then
            (remove_profile url (mark_reviewed url st), [Removed owner_id])
          else (st, []) in
        let '(st, out') := send_next owner_id st in
        (st, out ++ out')
    end
  else (st, [NotYourSession (from_user q)]).

(** ** Runs *)

Inductive Event :=
| Start (user_id : Z) (rnd : list nat)
| Skip (user_id : Z)
| Status (user_id : Z)
| ListAccepted (user_id : Z)
| Callback (q : CallbackQuery).

Definition step (e : Event) (st : State) : State * list Message :=
  match e with
  | Start u rnd => cmd_start u rnd st
  | Skip u => cmd_skip u st
  | Status u => cmd_status u st
  | ListAccepted u => cmd_accepted u st
  | Callback q => on_callback q st
  end.

(** The handlers run one at a time on the event loop; a run threads the
    state through them and collects what was sent. *)
Fixpoint run (es : list Event) (st : State) : State * list Message :=
  match es with
  | [] => (st, [])
  | e :: es' =>
      let '(st1, out1) := step e st in
      let '(st2, out2) := run es' st1 in
      (st2, out1 ++ out2)
  end.

Definition reachable (st : State) : Prop :=
  ∃ file es, st = (run es (init file)).1.

(** A press of the approve button by its owner. *)
Definition press_yes (u : Z) : Event := Callback (button "yes" u).

(** The keys that [profiles.txt] lists, in file order (what
    [load_profiles] would return with nothing retired and no shuffle). *)
Definition entries (st : State) : list string :=
  match profiles_file st with
  | None => []
  | Some text => load_result ∅ text
  end.

(** ** Vocabulary of the statements *)

(** The session after [send_next]: the head of its queue, if any, has
    become current. *)
Definition shown (s : Session) : Session :=
  match queue s with
  | [] => s
  | url :: _ =>
      {| queue := queue s; current := Some url; accepted := accepted s |}
  end.

(** The one message that [send_next] sends for a session. *)
Definition announce (user_id : Z) (s : Session) : Message :=
  match queue s with
  | [] => ReviewComplete user_id (accepted s)
  | url :: _ => Presentation user_id url (length (queue s))
  end.

(** The session after [queue.pop(0)] guarded by [if session.queue]. *)
Definition popped (s : Session) : Session :=
  {| queue := tail (queue s); current := current s; accepted := accepted s |}.

(** The session after [accepted.append(url)]. *)
Definition approve (url : string) (s : Session) : Session :=
  {| queue := queue s; current := current s; accepted := accepted s ++ [url] |}.

(** The owner a callback query names. *)
Definition owner_id (q : CallbackQuery) : Z :=
  default (from_user q) (owner_part q).

(** A verdict that [on_callback] acts on: pressed by the owner while the
    owner's session has a current item [url]. *)
Definition judged (q : CallbackQuery) (st : State) (url : string) : Prop :=
  from_user q = owner_id q ∧ truthy (current (session_of (owner_id q) st)) = Some url.

(** No queue holds a retired key. *)
Definition queues_clean (st : State) : Prop :=
  ∀ u k, k ∈ queue (session_of u st) → k ∉ reviewed_globally st.

(** A session that agrees with the retirement set [R]: no key is queued
    twice, and neither a queued key nor the current one is retired. *)
Definition session_ok (R : gset string) (s : Session) : Prop :=
  NoDup (queue s)
  ∧ (∀ k, k ∈ queue s → k ∉ R)
  ∧ (∀ k, current s = Some k → k ∉ R).

(** States in which the file lists no profile twice and every session
    agrees with the retirement set. *)
Definition duplicate_free (st : State) : Prop :=
  NoDup (entries st) ∧ ∀ u, session_ok (reviewed_globally st) (session_of u st).

(** ** Concrete files and runs used in the examples *)

Module Scenario.

Definition anna : string := "https://vk.com/anna".
Definition boris : string := "https://vk.com/boris".
Definition clara : string := "https://vk.com/clara".

(** A file given as its lines, each ended by ["\n"]. *)
Definition file_of (lines : list string) : option string :=
  Some (foldr (λ l text, l +:+ String LF text) "" lines).

(** One profile, no newline at the end of the file. *)
Definition unterminated : option string := Some anna.

Definition one_profile : option string :=
  file_of ["https://vk.com/anna | Anna, 25"].

Definition two_profiles : option string :=
  file_of ["https://vk.com/anna | Anna, 25"; "https://vk.com/boris"].

(** The same profile listed on two lines. *)
Definition listed_twice : option string :=
  file_of ["https://vk.com/anna | Anna, 25"; "https://vk.com/anna"].

Definition boris_then_anna_twice : option string :=
  file_of ["https://vk.com/boris"; "https://vk.com/anna | Anna, 25";
           "https://vk.com/anna"].

(** User 1 starts on [listed_twice] and approves. *)
Definition approved_once : State :=
  (run [Start 1 []; press_yes 1] (init listed_twice)).1.


(** User 2 is shown boris, user 1 is shown anna and approves her. *)
Definition anna_retired : State :=
  (run [Start 2 [2; 1]; Start 1 [0; 1]; press_yes 1]
     (init boris_then_anna_twice)).1.

(** User 1 starts on [one_profile] and skips. *)
Definition skipped_last : State :=
  (run [Start 1 []; Skip 1] (init one_profile)).1.

(** User 1 starts on [one_profile] and approves. *)
Definition all_reviewed : State :=
  (run [Start 1 []; press_yes 1] (init one_profile)).1.

End Scenario.

(** ** Vocabulary of the further properties *)

(** The user whose session a handler works on. *)
Definition event_user (e : Event) : Z :=
  match e with
  | Start u _ | Skip u | Status u | ListAccepted u => u
  | Callback q => owner_id q
  end.

(** [e] is a [/start] of user [u]. *)
Definition starts (u : Z) (e : Event) : Prop :=
  match e with
  | Start v _ => v = u
  | _ => False
  end.

(** A session whose keys are non-empty and whose approved keys are
    retired in [R]. *)
Definition session_wf (R : gset string) (s : Session) : Prop :=
  (∀ k, k ∈ queue s → k ≠ "")
  ∧ (∀ k, current s = Some k → k ≠ "")
  ∧ (∀ k, k ∈ accepted s → k ≠ "" ∧ k ∈ R).

Definition well_formed (st : State) : Prop :=
  ∀ u, session_wf (reviewed_globally st) (session_of u st).

(** A session all of whose keys are among [E]. *)
Definition session_listed (E : list string) (s : Session) : Prop :=
  (∀ k, k ∈ queue s → k ∈ E)
  ∧ (∀ k, current s = Some k → k ∈ E)
  ∧ (∀ k, k ∈ accepted s → k ∈ E).

(** No profile is approved twice, by one user or by two. *)
Definition approvals_exclusive (st : State) : Prop :=
  (∀ u, NoDup (accepted (session_of u st)))
  ∧ (∀ u v k, u ≠ v → k ∈ accepted (session_of u st) →
       k ∉ accepted (session_of v st)).

(** The invariant of runs that start from a file without repeated
    profiles. *)
Definition consistent (st : State) : Prop :=
  duplicate_free st
  ∧ well_formed st
  ∧ (∀ u, session_listed (entries st) (session_of u st))
  ∧ approvals_exclusive st.

(** Some character of [s] satisfies [P]. *)
Fixpoint any_char (P : ascii → bool) (s : string) : bool :=
  match s with
  | EmptyString => false
  | String c s' => P c || any_char P s'
  end.

Definition is_bar (c : ascii) : bool := Ascii.eqb c BAR.

(** [s] consists of whitespace only (it may be empty). *)
Definition all_space (s : string) : Prop :=
  any_char (λ c, negb (is_space c)) s = false.

(** A key in the form in which [load_profiles] returns it: not empty,
    stripped, without a bar and without a line boundary. *)
Definition normalised (k : string) : Prop :=
  k ≠ "" ∧ strip k = k ∧ any_char is_bar k = false ∧ has_linebreak k = false.

(** ** Screen names and avatars *)

Definition SLASH : ascii := "/"%char.

Definition is_slash (c : ascii) : bool := Ascii.eqb c SLASH.

(** [s] consists of slashes only (it may be empty). *)
Definition all_slash (s : string) : Prop :=
  any_char (λ c, negb (is_slash c)) s = false.

(** [s.rstrip("/")]: the trailing slashes are dropped. *)
Fixpoint rstrip_slash (s : string) : string :=
  match s with
  | EmptyString => ""
  | String c s' =>
      let r := rstrip_slash s' in
      if is_slash c && is_empty r then "" else String c r
  end.

(** [s.split("/")], scanning with the part read so far in [cur]. *)
Fixpoint split_slash_from (cur s : string) : list string :=
  match s with
  | EmptyString => [cur]
  | String c s' =>
      if is_slash c then cur :: split_slash_from "" s'
      else split_slash_from (cur +:+ String c "") s'
  end.

(** [url.rstrip("/").split("/")[-1]]. *)
Definition extract_screen_name (url : string) : string :=
  default "" (last (split_slash_from "" (rstrip_slash url))).

(** The values of the fields of a VK user record that the bot asks for. *)
Inductive JValue :=
| JNull
| JBool (b : bool)
| JInt (n : Z)
| JStr (s : string).

(** Python truth value of such a value. *)
Definition json_truthy (v : JValue) : bool :=
  match v with
  | JNull => false
  | JBool b => b
  | JInt n => negb (n =? 0)%Z
  | JStr s => negb (is_empty s)
  end.

(** [user.get(key)]. *)
Definition user_get (key : string) (user : gmap string JValue) : JValue :=
  default JNull (user !! key).

(** [a or b]. *)
Definition py_or (a b : JValue) : JValue := if json_truthy a then a else b.

(** [s.endswith("/")]. *)
Fixpoint ends_with_slash (s : string) : bool :=
  match s with
  | EmptyString => false
  | String c EmptyString => is_slash c
  | String _ s' => ends_with_slash s'
  end.

(** [os.path.join(a, b)] with the POSIX separator. *)
Definition path_join (a b : string) : string :=
  if match b with String c _ => is_slash c | EmptyString => false end then b
  else if is_empty a || ends_with_slash a then a +:+ b
  else a +:+ String SLASH b.

(** What the network and the browser answer: the result of
    [get_vk_user] ([None] when the request raises), of [download_image]
    and of [screenshot_avatar], which catch their errors and return a
    boolean. *)
Record Network := mkNetwork {
  get_vk_user : string → option (option (gmap string JValue));
  download_image : JValue → string → bool;
  screenshot_avatar : string → string → bool
}.

(** The external calls of [get_avatar_path], in the order made. *)
Inductive Attempt :=
| Lookup (screen_name : string)
| Download (img_url : JValue) (dest : string)
| Screenshot (profile_url dest : string).

Definition succeeded (net : Network) (a : Attempt) : bool :=
  match a with
  | Lookup _ => false
  | Download img dest => download_image net img dest
  | Screenshot url dest => screenshot_avatar net url dest
  end.

(** [not user or "deactivated" in user]. *)
Definition no_active_user (user : option (gmap string JValue)) : bool :=
  match user with
  | None => true
  | Some d => bool_decide (d = ∅) || bool_decide (is_Some (d !! "deactivated"))
  end.

(** The block under [if not user.get("is_closed")]: whether it returned
    the image, and the call it made. *)
Definition download_block (net : Network) (d : gmap string JValue)
    (dest : string) : bool * list Attempt :=
  if negb (json_truthy (user_get "is_closed" d)) then
    let img_url :=
      py_or (user_get "photo_max_orig" d) (user_get "photo_max" d) in
    if json_truthy img_url then
      (download_image net img_url dest, [Download img_url dest])
    else (false, [])
  else (false, []).

(** [get_avatar_path]: the pair it returns ([None] when [get_vk_user]
    raises) and the calls it made. *)
Definition get_avatar_path (net : Network) (profile_url tmpdir : string)
  : option (option string * option (gmap string JValue)) * list Attempt :=
  let screen_name := extract_screen_name profile_url in
  match get_vk_user net screen_name with
  | None => (None, [Lookup screen_name])
  | Some user =>
      if no_active_user user then (Some (None, user), [Lookup screen_name])
      else
        let dest := path_join tmpdir "avatar.jpg" in
        let '(got, calls) := download_block net (default ∅ user) dest in
        if got then (Some (Some dest, user), Lookup screen_name :: calls)
        else if screenshot_avatar net profile_url dest then
          (Some (Some dest, user),
           Lookup screen_name :: calls ++ [Screenshot profile_url dest])
        else
          (Some (None, user),
           Lookup screen_name :: calls ++ [Screenshot profile_url dest])
  end.

(** A network for the examples: the account [anna] is open and has a
    photo, the download fails and the screenshot works. *)
Module AvatarScenario.

Definition anna_record : gmap string JValue :=
  {[ "first_name" := JStr "Anna";
     "is_closed" := JBool false;
     "photo_max_orig" := JStr "";
     "photo_max" := JStr "https://img.example/anna.jpg" ]}.

Definition net : Network :=
  {| get_vk_user := λ name,
       if String.eqb name "anna" then Some (Some anna_record) else Some None;
     download_image := λ _ _, false;
     screenshot_avatar := λ _ _, true |}.

End AvatarScenario.

(** * Properties *)

(** ** The primitives on concrete inputs *)

Example splitlines_mixed_breaks :
  splitlines ("a | x" +:+ String CR (String LF ("b" +:+ String LF (String LF "c"))))
  = ["a | x"; "b"; ""; "c"].
Proof. reflexivity. Qed.

Example splitlines_trailing_break :
  splitlines ("a" +:+ String LF "") = ["a"]
  ∧ splitlines "a" = ["a"]
  ∧ splitlines (String LF "") = [""]
  ∧ splitlines "" = [].
Proof. by split_and!. Qed.

Example line_url_of_labelled_line :
  line_url "  https://vk.com/id1  | Ann, 20 " = "https://vk.com/id1".
Proof. reflexivity. Qed.

Example join_lf_lines : join_lf ["a"; ""; "b"] = "a" +:+ String LF (String LF "b").
Proof. reflexivity. Qed.

Example shuffle_draws :
  shuffle [2; 1] ["a"; "b"; "c"] = ["a"; "b"; "c"]
  ∧ shuffle [0; 1] ["a"; "b"; "c"] = ["c"; "b"; "a"]
  ∧ shuffle [0; 0] ["a"; "b"; "c"] = ["b"; "c"; "a"].
Proof. by split_and!. Qed.

Example load_skips_blank_and_retired :
  load_profiles [] 
    {| reviewed_globally := {[Scenario.boris]};
       sessions := ∅;
       profiles_file :=
         Scenario.file_of ["https://vk.com/boris | B"; "   "; " | nobody";
                           "https://vk.com/anna"] |}
  = [Scenario.anna].
Proof. by vm_compute. Qed.

(** ** Text *)

Section text_facts.

Local Abbreviation no_break l := (has_linebreak l = false).

Lemma is_empty_true s : is_empty s = true → s = "".
Proof. by destruct s. Qed.

Lemma app_nil_str t : "" +:+ t = t.
Proof. reflexivity. Qed.

Lemma app_cons_str c s t : String c s +:+ t = String c (s +:+ t).
Proof. reflexivity. Qed.

Lemma app_empty_r s : s +:+ "" = s.
Proof.
  induction s as [|c s IH]; [done|]. by rewrite app_cons_str, IH.
Qed.

Lemma app_assoc_str a b c : (a +:+ b) +:+ c = a +:+ (b +:+ c).
Proof.
  induction a as [|x a IH]; [done|]. by rewrite !app_cons_str, IH.
Qed.

Lemma bar_not_space c : Ascii.eqb c BAR = true → is_space c = false.
Proof. intros ->%Ascii.eqb_eq. reflexivity. Qed.

Lemma lstrip_idem s : lstrip (lstrip s) = lstrip s.
Proof.
  induction s as [|c s IH]; simpl; [done|].
  destruct (is_space c) eqn:E; [done|]. simpl. by rewrite E.
Qed.

Lemma lstrip_rstrip s : lstrip (rstrip s) = rstrip (lstrip s).
Proof.
  induction s as [|c s IH]; simpl; [done|].
  destruct (is_space c) eqn:E; simpl.
  - destruct (is_empty (rstrip s)) eqn:Er; simpl.
    + rewrite <- IH. by rewrite (is_empty_true _ Er).
    + by rewrite E.
  - by rewrite E.
Qed.

Lemma split_bar_0_lstrip s : split_bar_0 (lstrip s) = lstrip (split_bar_0 s).
Proof.
  induction s as [|c s IH]; simpl; [done|].
  destruct (is_space c) eqn:E.
  - destruct (Ascii.eqb c BAR) eqn:Eb.
    + apply bar_not_space in Eb. congruence.
    + simpl. by rewrite E.
  - simpl. destruct (Ascii.eqb c BAR); simpl; [done|]. by rewrite E.
Qed.

Lemma rstrip_split_bar_0 s :
  rstrip (split_bar_0 (rstrip s)) = rstrip (split_bar_0 s).
Proof.
  induction s as [|c s IH]; simpl; [done|].
  destruct (Ascii.eqb c BAR) eqn:Eb.
  - rewrite (bar_not_space _ Eb). simpl. by rewrite Eb.
  - destruct (is_space c) eqn:E; simpl.
    + destruct (is_empty (rstrip s)) eqn:Er; simpl.
      * rewrite <- IH, (is_empty_true _ Er). simpl. by rewrite E.
      * rewrite Eb. simpl. by rewrite E, IH.
    + rewrite Eb. simpl. by rewrite E, IH.
Qed.

(** Stripping the line first, as [load_profiles] does, yields the key
    that [remove_profile] computes from the raw line. *)
Lemma line_url_strip l : line_url (strip l) = line_url l.
Proof.
  unfold line_url, strip.
  rewrite split_bar_0_lstrip, <- lstrip_rstrip, lstrip_idem.
  by rewrite rstrip_split_bar_0.
Qed.

Lemma has_linebreak_app a b :
  has_linebreak (a +:+ b) = has_linebreak a || has_linebreak b.
Proof.
  induction a as [|c a IH]; [done|].
  rewrite app_cons_str. simpl. by rewrite IH, orb_assoc.
Qed.

(** No line returned by [splitlines] contains a line boundary. *)
Lemma splitlines_from_no_break s :
  (∀ cur, no_break cur → Forall (λ l, no_break l) (splitlines_from cur s))
  ∧ match s with
    | String _ s' =>
        ∀ cur, no_break cur → Forall (λ l, no_break l) (splitlines_from cur s')
    | EmptyString => True
    end.
Proof.
  induction s as [|c s [IH1 IH2]]; simpl.
  - split; [|done]. intros cur Hc. destruct (is_empty cur); by constructor.
  - split; [|done]. intros cur Hc.
    destruct (is_linebreak c) eqn:E.
    + constructor; [done|].
      destruct s as [|c' s']; [by apply IH1|].
      destruct (_ && _); [by apply IH2 | by apply IH1].
    + apply IH1. rewrite has_linebreak_app, Hc. simpl. by rewrite E.
Qed.

Lemma splitlines_no_break text : Forall (λ l, no_break l) (splitlines text).
Proof. by apply splitlines_from_no_break. Qed.

(** A break-free line followed by ["\n"] is read back as that line. *)
Lemma splitlines_from_line cur l rest :
  no_break l →
  splitlines_from cur (l +:+ String LF rest)
  = (cur +:+ l) :: splitlines_from "" rest.
Proof.
  revert cur. induction l as [|c l IH]; intros cur Hl.
  - rewrite app_empty_r, app_nil_str. simpl. by destruct rest.
  - simpl in Hl. apply orb_false_iff in Hl as [Hc Hl].
    rewrite app_cons_str. simpl. rewrite Hc, IH by done.
    by rewrite app_assoc_str, app_cons_str, app_nil_str.
Qed.

Lemma splitlines_join l ls :
  Forall (λ l, no_break l) (l :: ls) →
  splitlines (join_lf (l :: ls) +:+ String LF "") = l :: ls.
Proof.
  unfold splitlines. revert l. induction ls as [|l' ls IH]; intros l Hnb.
  - simpl. rewrite splitlines_from_line by by inversion Hnb. done.
  - inversion_clear Hnb as [|?? Hl Hls].
    change (join_lf (l :: l' :: ls)) with (l +:+ String LF (join_lf (l' :: ls))).
    rewrite app_assoc_str, app_cons_str.
    rewrite splitlines_from_line by done. rewrite app_nil_str.
    f_equal. by apply IH.
Qed.

(** The text that [remove_profile] writes, read back line by line. *)
Lemma splitlines_written ls :
  Forall (λ l, no_break l) ls →
  splitlines (join_lf ls +:+ String LF "")
  = match ls with [] => [""] | _ :: _ => ls end.
Proof. destruct ls; [done|]. apply splitlines_join. Qed.

End text_facts.

(** ** The profile file *)

Section file_facts.

Local Abbreviation no_break l := (has_linebreak l = false).

Lemma filter_no_break (P : string → Prop) `{!∀ l, Decision (P l)} ls :
  Forall (λ l, no_break l) ls → Forall (λ l, no_break l) (filter P ls).
Proof.
  intros Hnb. apply Forall_forall. intros l [_ Hl]%list_elem_of_filter.
  by eapply Forall_forall in Hnb.
Qed.

Lemma filter_idem {A} (P : A → Prop) `{!∀ x, Decision (P x)} (l : list A) :
  filter P (filter P l) = filter P l.
Proof.
  induction l as [|x l IH]; [done|].
  rewrite filter_cons. destruct (decide (P x)) as [Hx|Hx]; [|done].
  rewrite filter_cons, decide_True by done. by rewrite IH.
Qed.

Lemma filter_all {A} (P : A → Prop) `{!∀ x, Decision (P x)} (l : list A) :
  Forall P l → filter P l = l.
Proof.
  induction 1 as [|x l Hx _ IH]; [done|].
  by rewrite filter_cons, decide_True, IH.
Qed.

(** The loop body of [load_profiles] in terms of the key of the raw line. *)
Lemma load_line_url R l :
  load_line R l
  = if negb (is_empty (line_url l)) && bool_decide (line_url l ∉ R)
    then [line_url l] else [].
Proof.
  unfold load_line. rewrite line_url_strip.
  destruct (is_empty (strip l)) eqn:E; [|done].
  apply is_empty_true in E.
  assert (line_url l = "") as -> by (by rewrite <- line_url_strip, E).
  done.
Qed.

Lemma elem_of_load_line R l u :
  u ∈ load_line R l ↔ u = line_url l ∧ u ≠ "" ∧ u ∉ R.
Proof.
  rewrite load_line_url.
  destruct (is_empty (line_url l)) eqn:E; simpl.
  - apply is_empty_true in E. rewrite E. split; [by intros ?%elem_of_nil|].
    by intros (-> & ? & _).
  - assert (line_url l ≠ "") by (intros Heq; by rewrite Heq in E).
    case_bool_decide as HR.
    + rewrite list_elem_of_singleton. split; [by intros ->|by intros [-> _]].
    + split; [by intros ?%elem_of_nil|]. by intros (-> & _ & ?).
Qed.

Lemma elem_of_load_result R text u :
  u ∈ load_result R text
  ↔ u ≠ "" ∧ (u ∉ R) ∧ ∃ l, l ∈ splitlines text ∧ line_url l = u.
Proof.
  unfold load_result. rewrite list_elem_of_In, in_flat_map. split.
  - intros (l & Hl%list_elem_of_In & Hu%list_elem_of_In).
    apply elem_of_load_line in Hu as (-> & ? & ?). eauto.
  - intros (? & ? & l & Hl & <-). exists l.
    rewrite <- !list_elem_of_In. split; [done|].
    by apply elem_of_load_line.
Qed.

(** Loading with a retirement set is loading with none, then filtering. *)
Lemma load_result_filter R text :
  load_result R text = filter (λ u, u ∉ R) (load_result ∅ text).
Proof.
  unfold load_result.
  induction (splitlines text) as [|l ls IH]; [done|].
  simpl. rewrite filter_app, <- IH. f_equal.
  rewrite !load_line_url.
  destruct (is_empty (line_url l)); simpl; [done|].
  rewrite (bool_decide_eq_true_2 (line_url l ∉ ∅)) by set_solver.
  rewrite filter_cons.
  destruct (decide (line_url l ∉ R)) as [Hin|Hin].
  - by rewrite bool_decide_eq_true_2.
  - by rewrite bool_decide_eq_false_2.
Qed.

Lemma flat_map_load_filter R k ls :
  flat_map (load_line R) (filter (λ l, line_url l ≠ k) ls)
  = filter (λ u, u ≠ k) (flat_map (load_line R) ls).
Proof.
  induction ls as [|l ls IH]; [done|].
  simpl. rewrite filter_app, <- IH, filter_cons.
  rewrite (load_line_url R l).
  destruct (decide (line_url l ≠ k)) as [Hne|Heq].
  - simpl. f_equal. rewrite load_line_url.
    destruct (_ && _); [|done]. by rewrite filter_cons, decide_True.
  - destruct (_ && _); [|done]. by rewrite filter_cons, decide_False.
Qed.

(** What [load_profiles] reads after a [remove_profile]: the former
    result without the removed key, order kept. *)
Lemma load_result_remove R k text :
  load_result R (remove_text k text)
  = filter (λ u, u ≠ k) (load_result R text).
Proof.
  unfold load_result, remove_text.
  rewrite splitlines_written
    by (apply filter_no_break, splitlines_no_break).
  rewrite <- flat_map_load_filter.
  by destruct (filter _ (splitlines text)).
Qed.

(** Text in written form is reproduced by reading and writing it. *)
Lemma written_fixpoint ls :
  Forall (λ l, no_break l) ls →
  join_lf (splitlines (join_lf ls +:+ String LF "")) +:+ String LF ""
  = join_lf ls +:+ String LF "".
Proof.
  intros H. rewrite splitlines_written by done. by destruct ls.
Qed.

Lemma remove_text_absent k text :
  Forall (λ l, line_url l ≠ k) (splitlines text) →
  remove_text k text = join_lf (splitlines text) +:+ String LF "".
Proof. intros H. unfold remove_text. by rewrite filter_all. Qed.

Lemma remove_text_idem k text :
  remove_text k (remove_text k text) = remove_text k text.
Proof.
  unfold remove_text at 1 3.
  set (F := filter (λ l, line_url l ≠ k) (splitlines text)).
  assert (Forall (λ l, no_break l) F) as Hnb
    by apply filter_no_break, splitlines_no_break.
  unfold remove_text. fold F. rewrite splitlines_written by done.
  destruct F as [|l F'] eqn:EF.
  - rewrite filter_cons. by destruct (decide _).
  - rewrite <- EF. unfold F. by rewrite filter_idem.
Qed.

Lemma remove_text_written k k' text :
  Forall (λ l, line_url l ≠ k) (splitlines (remove_text k' text)) →
  remove_text k (remove_text k' text) = remove_text k' text.
Proof.
  intros H. rewrite remove_text_absent by done.
  apply written_fixpoint, filter_no_break, splitlines_no_break.
Qed.

End file_facts.

(** ** Sessions and the state *)

Section state_facts.

Implicit Types (st : State) (s : Session) (u v : Z) (k url : string).

Lemma set_session_twice u s s' st :
  set_session u s (set_session u s' st) = set_session u s st.
Proof. unfold set_session, set_sessions. simpl. by rewrite insert_insert_eq. Qed.

Lemma session_of_set_session u v s st :
  session_of v (set_session u s st) = if decide (u = v) then s else session_of v st.
Proof.
  unfold session_of. simpl. destruct (decide (u = v)) as [->|Hne].
  - by rewrite lookup_insert_eq.
  - by rewrite lookup_insert_ne.
Qed.

Lemma session_of_mark_reviewed v url st :
  session_of v (mark_reviewed url st) = purge url (session_of v st).
Proof.
  unfold session_of. simpl. rewrite lookup_fmap.
  by destruct (sessions st !! v).
Qed.

Lemma session_of_remove_profile v url st :
  session_of v (remove_profile url st) = session_of v st.
Proof. unfold remove_profile. by destruct (profiles_file st). Qed.

Lemma reviewed_remove_profile url st :
  reviewed_globally (remove_profile url st) = reviewed_globally st.
Proof. unfold remove_profile. by destruct (profiles_file st). Qed.

Lemma file_remove_profile url st :
  profiles_file (remove_profile url st) = remove_text url <$> profiles_file st.
Proof. unfold remove_profile. by destruct (profiles_file st) eqn:E. Qed.

(** [get_session] returns what [session_of] reads and stores it. *)
Lemma get_session_eq u st :
  get_session u st = (session_of u st, set_session u (session_of u st) st).
Proof.
  unfold get_session, session_of.
  destruct (sessions st !! u) as [s|] eqn:E; simpl; [|done].
  f_equal. unfold set_session, set_sessions. rewrite insert_id by done.
  by destruct st.
Qed.

Lemma truthy_Some o url : truthy o = Some url → o = Some url.
Proof.
  destruct o as [x|]; simpl; [|done]. destruct (is_empty x); [done|].
  by intros [= ->].
Qed.

Lemma accepted_shown s : accepted (shown s) = accepted s.
Proof. unfold shown. by destruct (queue s). Qed.

Lemma send_next_eq u st :
  send_next u st
  = (set_session u (shown (session_of u st)) st, [announce u (session_of u st)]).
Proof.
  unfold send_next, shown, announce. rewrite get_session_eq.
  destruct (queue (session_of u st)) as [|url rest]; [done|].
  by rewrite set_session_twice.
Qed.

Lemma cmd_skip_eq u st :
  cmd_skip u st
  = (set_session u (shown (popped (session_of u st))) st,
     [announce u (popped (session_of u st))]).
Proof.
  unfold cmd_skip. rewrite get_session_eq.
  assert ((match queue (session_of u st) with
           | [] => set_session u (session_of u st) st
           | _ :: rest =>
               set_session u
                 {| queue := rest; current := current (session_of u st);
                    accepted := accepted (session_of u st) |}
                 (set_session u (session_of u st) st)
           end) = set_session u (popped (session_of u st)) st) as ->.
  { unfold popped. destruct (session_of u st) as [[|x q] c a]; simpl; [done|].
    by rewrite set_session_twice. }
  rewrite send_next_eq, session_of_set_session, decide_True by done.
  by rewrite set_session_twice.
Qed.

Lemma cmd_start_eq u rnd st :
  cmd_start u rnd st
  = match load_profiles rnd st with
    | [] => (set_session u (session_of u st) st, [NoProfiles u])
    | url :: rest =>
        (set_session u (shown (restart (url :: rest))) st,
         [Started u (length (url :: rest)); announce u (restart (url :: rest))])
    end.
Proof.
  unfold cmd_start. rewrite get_session_eq.
  change (load_profiles rnd (set_session u (session_of u st) st))
    with (load_profiles rnd st).
  destruct (load_profiles rnd st) as [|url rest]; [done|].
  rewrite send_next_eq, session_of_set_session, decide_True by done.
  by rewrite !set_session_twice.
Qed.

Lemma on_callback_eq q st :
  on_callback q st
  = let o := owner_id q in
    let s := session_of o st in
    if decide (from_user q = o) then
      match truthy (current s) with
      | None => (set_session o s st, [])
      | Some url =>
          if decide (action q = "yes") then
            (set_session o (shown (purge url (approve url s)))
               (mark_reviewed url (set_session o (approve url s) st)),
             [Added o url; announce o (purge url (approve url s))])
          else if decide (action q = "no") then
            (set_session o (shown (purge url s))
               (remove_profile url (mark_reviewed url (set_session o s st))),
             [Removed o; announce o (purge url s)])
          else (set_session o (shown s) st, [announce o s])
      end
    else (st, [NotYourSession (from_user q)]).
Proof.
  unfold on_callback. fold (owner_id q). simpl.
  destruct (decide (from_user q = owner_id q)) as [Ho|Ho]; [|done].
  rewrite get_session_eq.
  destruct (truthy (current (session_of (owner_id q) st))) as [url|]; [|done].
  destruct (decide (action q = "yes")) as [Hy|Hy].
  - rewrite send_next_eq, set_session_twice.
    rewrite session_of_mark_reviewed, session_of_set_session, decide_True by done.
    done.
  - destruct (decide (action q = "no")) as [Hn|Hn].
    + rewrite send_next_eq.
      rewrite session_of_remove_profile, session_of_mark_reviewed,
        session_of_set_session, decide_True by done.
      done.
    + rewrite send_next_eq, session_of_set_session, decide_True by done.
      by rewrite set_session_twice.
Qed.

End state_facts.

(** ** [random.shuffle] permutes *)

Section shuffle_facts.

Context {A : Type}.
Implicit Types (x : list A) (i j : nat).

Lemma swap_perm i j x : swap i j x ≡ₚ x.
Proof.
  unfold swap.
  destruct (x !! i) as [a|] eqn:Hi; [|done].
  destruct (x !! j) as [b|] eqn:Hj; [|done].
  pose proof (lookup_lt_Some _ _ _ Hi) as Hli.
  pose proof (lookup_lt_Some _ _ _ Hj) as Hlj.
  apply Permutation_inj. split; [by rewrite !length_insert|].
  exists (λ n, if decide (n = j) then i else if decide (n = i) then j else n).
  split.
  - intros n m Hnm. repeat case_decide; congruence.
  - intros n. destruct (decide (n = j)) as [->|Hnj].
    + rewrite list_lookup_insert_eq by by rewrite length_insert. done.
    + rewrite list_lookup_insert_ne by done.
      destruct (decide (n = i)) as [->|Hni].
      * by rewrite list_lookup_insert_eq.
      * by rewrite list_lookup_insert_ne.
Qed.

Lemma shuffle_loop_perm i rnd x : shuffle_loop i rnd x ≡ₚ x.
Proof.
  revert rnd x. induction i as [|i IH]; intros rnd x; [done|].
  simpl. by rewrite IH, swap_perm.
Qed.

Lemma shuffle_perm rnd x : shuffle rnd x ≡ₚ x.
Proof. apply shuffle_loop_perm. Qed.

End shuffle_facts.

Lemma load_profiles_perm rnd st :
  load_profiles rnd st
  ≡ₚ filter (λ u, u ∉ reviewed_globally st) (entries st).
Proof.
  unfold load_profiles, entries. destruct (profiles_file st) as [text|]; [|done].
  by rewrite shuffle_perm, load_result_filter.
Qed.

Lemma elem_of_load_profiles rnd st u :
  u ∈ load_profiles rnd st ↔ u ∈ entries st ∧ u ∉ reviewed_globally st.
Proof. rewrite load_profiles_perm, list_elem_of_filter. tauto. Qed.

Lemma entries_nonempty st u : u ∈ entries st → u ≠ "".
Proof.
  unfold entries. destruct (profiles_file st); [|by intros ?%elem_of_nil].
  by intros (? & _)%elem_of_load_result.
Qed.

Lemma entries_remove_profile url st :
  entries (remove_profile url st) = filter (λ u, u ≠ url) (entries st).
Proof.
  unfold entries. rewrite file_remove_profile.
  destruct (profiles_file st); [|done]. apply load_result_remove.
Qed.

(** ** Sessions that agree with the retirement set *)

Section session_ok_facts.

Implicit Types (R : gset string) (s : Session) (k url : string).

Lemma remove_first_subset url l k : k ∈ remove_first url l → k ∈ l.
Proof.
  induction l as [|x l IH]; simpl; [done|].
  destruct (decide (x = url)) as [->|Hne]; rewrite ?elem_of_cons.
  - by right.
  - intros [->|Hin]; [by left|right; by apply IH].
Qed.

Lemma remove_first_NoDup url l : NoDup l → NoDup (remove_first url l).
Proof.
  induction 1 as [|x l Hx Hl IH]; simpl; [constructor|].
  destruct (decide (x = url)); [done|].
  constructor; [|done]. intros Hin%remove_first_subset. done.
Qed.

(** On a queue without repetitions [list.remove] removes the key. *)
Lemma remove_first_gone url l : NoDup l → url ∉ remove_first url l.
Proof.
  induction 1 as [|x l Hx Hl IH]; simpl; [by intros ?%elem_of_nil|].
  destruct (decide (x = url)) as [->|Hne]; [done|].
  rewrite elem_of_cons. by intros [?|?].
Qed.

Lemma session_ok_new R : session_ok R new_session.
Proof.
  repeat split; simpl; [constructor| |done]. by intros k ?%elem_of_nil.
Qed.

Lemma session_ok_shown R s : session_ok R s → session_ok R (shown s).
Proof.
  intros Hok. unfold shown.
  destruct (queue s) as [|url rest] eqn:E; [done|].
  destruct Hok as (Hnd & Hq & Hc). rewrite E in Hnd, Hq.
  repeat split; simpl; [done..|].
  intros k [= <-]. apply Hq. by left.
Qed.

Lemma session_ok_popped R s : session_ok R s → session_ok R (popped s).
Proof.
  intros (Hnd & Hq & Hc). repeat split; simpl; [| |done].
  - destruct (queue s) as [|x rest]; [done|]. by apply NoDup_cons in Hnd as [_ ?].
  - intros k Hk. apply Hq. destruct (queue s) as [|x rest]; [done|].
    by apply elem_of_cons; right.
Qed.

Lemma session_ok_approve R url s : session_ok R s → session_ok R (approve url s).
Proof. done. Qed.

Lemma session_ok_purge R url s :
  session_ok R s → session_ok (R ∪ {[url]}) (purge url s).
Proof.
  intros (Hnd & Hq & Hc). repeat split; simpl.
  - by apply remove_first_NoDup.
  - intros k Hk. apply not_elem_of_union. split.
    + by eapply Hq, remove_first_subset.
    + intros ->%elem_of_singleton. by eapply remove_first_gone.
  - intros k Hk. destruct (decide (current s = Some url)) as [Heq|Hne]; [done|].
    apply not_elem_of_union. split; [by apply Hc|].
    intros ->%elem_of_singleton. done.
Qed.

Lemma session_ok_restart R l :
  NoDup l → (∀ k, k ∈ l → k ∉ R) → session_ok R (restart l).
Proof. by repeat split. Qed.

End session_ok_facts.

(** ** Runs from a file that lists every profile once *)

Section duplicate_free_facts.

Implicit Types (st : State) (u : Z) (k : string).

Lemma duplicate_free_init file :
  NoDup (entries (init file)) → duplicate_free (init file).
Proof. intros H. split; [done|]. intros u. apply session_ok_new. Qed.

Lemma duplicate_free_set_session u s st :
  duplicate_free st → session_ok (reviewed_globally st) s →
  duplicate_free (set_session u s st).
Proof.
  intros [Hf Hs] Hok. split; [done|]. intros v.
  rewrite session_of_set_session. by case_decide.
Qed.

Lemma duplicate_free_mark_reviewed url st :
  duplicate_free st → duplicate_free (mark_reviewed url st).
Proof.
  intros [Hf Hs]. split; [done|]. intros v.
  rewrite session_of_mark_reviewed. by apply session_ok_purge.
Qed.

Lemma duplicate_free_remove_profile url st :
  duplicate_free st → duplicate_free (remove_profile url st).
Proof.
  intros [Hf Hs]. split.
  - rewrite entries_remove_profile. by apply NoDup_filter.
  - intros v. by rewrite session_of_remove_profile, reviewed_remove_profile.
Qed.

Lemma duplicate_free_session st u :
  duplicate_free st → session_ok (reviewed_globally st) (session_of u st).
Proof. by intros [_ ?]. Qed.

Lemma load_profiles_ok rnd st :
  duplicate_free st →
  session_ok (reviewed_globally st) (restart (load_profiles rnd st)).
Proof.
  intros [Hf _]. apply session_ok_restart.
  - rewrite load_profiles_perm. by apply NoDup_filter.
  - by intros k [_ ?]%elem_of_load_profiles.
Qed.

Lemma duplicate_free_step e st :
  duplicate_free st → duplicate_free (step e st).1.
Proof.
  intros Hst. pose proof (λ u, duplicate_free_session st u Hst) as Hs.
  destruct e as [u rnd|u|u|u|q]; simpl.
  - rewrite cmd_start_eq.
    pose proof (load_profiles_ok rnd st Hst) as Hl.
    destruct (load_profiles rnd st); simpl.
    + by apply duplicate_free_set_session.
    + by apply duplicate_free_set_session, session_ok_shown.
  - rewrite cmd_skip_eq. simpl.
    by apply duplicate_free_set_session, session_ok_shown, session_ok_popped.
  - unfold cmd_status. rewrite get_session_eq. simpl.
    by apply duplicate_free_set_session.
  - unfold cmd_accepted. rewrite get_session_eq. simpl.
    by apply duplicate_free_set_session.
  - rewrite on_callback_eq. simpl. case_decide; [|done].
    destruct (truthy _) as [url|]; [|by apply duplicate_free_set_session].
    repeat case_decide; simpl.
    + apply duplicate_free_set_session.
      * apply duplicate_free_mark_reviewed, duplicate_free_set_session; [done|].
        apply session_ok_approve, Hs.
      * apply session_ok_shown. simpl.
        apply session_ok_purge, session_ok_approve, Hs.
    + apply duplicate_free_set_session.
      * by apply duplicate_free_remove_profile, duplicate_free_mark_reviewed,
          duplicate_free_set_session.
      * rewrite reviewed_remove_profile.
        apply session_ok_shown. simpl. by apply session_ok_purge.
    + by apply duplicate_free_set_session, session_ok_shown.
Qed.

Lemma duplicate_free_run es st :
  duplicate_free st → duplicate_free (run es st).1.
Proof.
  revert st. induction es as [|e es IH]; intros st Hst; [done|].
  simpl. pose proof (duplicate_free_step e st Hst) as H1.
  destruct (step e st) as [st1 out1]. specialize (IH st1 H1).
  by destruct (run es st1).
Qed.

End duplicate_free_facts.

(** ** What a handler may change *)

Section frame_facts.

Implicit Types (st : State) (u : Z) (k url : string).

Lemma entries_ext st st' :
  profiles_file st' = profiles_file st → entries st' = entries st.
Proof. unfold entries. by intros ->. Qed.

(** The file changes only in the "no" branch of [on_callback]. *)
Lemma step_file_cases e st :
  profiles_file (step e st).1 = profiles_file st
  ∨ ∃ q url, e = Callback q ∧ action q = "no" ∧ judged q st url
      ∧ profiles_file (step e st).1 = profiles_file (remove_profile url st).
Proof.
  destruct e as [u rnd|u|u|u|q]; simpl.
  - left. rewrite cmd_start_eq. by destruct (load_profiles rnd st).
  - left. by rewrite cmd_skip_eq.
  - left. unfold cmd_status. by rewrite get_session_eq.
  - left. unfold cmd_accepted. by rewrite get_session_eq.
  - rewrite on_callback_eq. simpl.
    destruct (decide (from_user q = owner_id q)) as [Ho|Ho]; [|by left].
    destruct (truthy _) as [url|] eqn:Hc; [|by left].
    destruct (decide (action q = "yes")) as [Hy|Hy]; [by left|].
    destruct (decide (action q = "no")) as [Hn|Hn]; [|by left].
    right. exists q, url. repeat split; [done..|].
    simpl. by rewrite !file_remove_profile.
Qed.

(** The retirement set only grows. *)
Lemma step_reviewed e st :
  reviewed_globally st ⊆ reviewed_globally (step e st).1.
Proof.
  destruct e as [u rnd|u|u|u|q]; simpl.
  - rewrite cmd_start_eq. by destruct (load_profiles rnd st).
  - by rewrite cmd_skip_eq.
  - unfold cmd_status. by rewrite get_session_eq.
  - unfold cmd_accepted. by rewrite get_session_eq.
  - rewrite on_callback_eq. simpl.
    case_decide; [|done]. destruct (truthy _) as [url|]; [|done].
    repeat case_decide; simpl; rewrite ?reviewed_remove_profile; simpl;
      set_solver.
Qed.

(** The file only loses entries. *)
Lemma step_entries e st k : k ∈ entries (step e st).1 → k ∈ entries st.
Proof.
  destruct (step_file_cases e st) as [Heq|(q & url & _ & _ & _ & Heq)];
    rewrite (entries_ext _ _ Heq); [done|].
  rewrite entries_remove_profile. by intros [_ ?]%list_elem_of_filter.
Qed.

Lemma run_reviewed es st :
  reviewed_globally st ⊆ reviewed_globally (run es st).1.
Proof.
  revert st. induction es as [|e es IH]; intros st; [done|].
  simpl. pose proof (step_reviewed e st) as H1.
  destruct (step e st) as [st1 out1]. specialize (IH st1).
  destruct (run es st1). simpl in *. set_solver.
Qed.

Lemma run_entries es st k : k ∈ entries (run es st).1 → k ∈ entries st.
Proof.
  revert st. induction es as [|e es IH]; intros st; [done|].
  simpl. pose proof (step_entries e st k) as H1.
  destruct (step e st) as [st1 out1]. specialize (IH st1).
  destruct (run es st1). simpl in *. auto.
Qed.

Lemma run_cons e es st : (run (e :: es) st).1 = (run es (step e st).1).1.
Proof.
  cbn [run]. destruct (step e st) as [st1 ?]. simpl.
  by destruct (run es st1).
Qed.

(** An entry disappears from the file only through a reject of it. *)
Lemma run_entry_lost es st k :
  k ∈ entries st → k ∉ entries (run es st).1 →
  ∃ es1 q es2, es = es1 ++ Callback q :: es2
    ∧ action q = "no" ∧ judged q (run es1 st).1 k.
Proof.
  revert st. induction es as [|e es IH]; intros st Hin Hout; [done|].
  rewrite run_cons in Hout.
  destruct (decide (k ∈ entries (step e st).1)) as [Hk|Hk].
  - destruct (IH _ Hk Hout) as (es1 & q & es2 & Hes & Hn & Hj).
    exists (e :: es1), q, es2. rewrite Hes, run_cons. by split_and!.
  - destruct (step_file_cases e st) as [Heq|(q & url & -> & Hn & Hj & Heq)].
    + by rewrite (entries_ext _ _ Heq) in Hk.
    + rewrite (entries_ext _ _ Heq), entries_remove_profile in Hk.
      assert (k = url) as ->.
      { destruct (decide (k = url)); [done|].
        exfalso. apply Hk. by apply list_elem_of_filter. }
      exists [], q, es. by split_and!.
Qed.

End frame_facts.

(** * Statements about the components *)

(** ** ItemStore: [remove_profile] *)

(** C7, as stated, fails: removing a key that the file does not list
    rewrites a file that lacks the final newline. *)
Lemma remove_profile_absent_rewrites :
  Forall (λ l, line_url l ≠ Scenario.boris) (splitlines Scenario.anna)
  ∧ profiles_file (init Scenario.unterminated) = Some Scenario.anna
  ∧ profiles_file (remove_profile Scenario.boris (init Scenario.unterminated))
    = Some (Scenario.anna +:+ String LF "")
  ∧ profiles_file (remove_profile Scenario.boris (init Scenario.unterminated))
    ≠ profiles_file (init Scenario.unterminated).
Proof.
  split_and!; [|done..].
  repeat constructor. by vm_compute.
Qed.

(** C7 (amended): [remove_profile] deletes every entry whose key is [url]
    and keeps the others in order; it does nothing when the file does not
    exist; it is idempotent; and when no line has the key [url], the lines
    and entries are kept, the file being rewritten with every line ended
    by ["\n"], so that a file already written by [remove_profile] is left
    exactly as it is. *)
Theorem remove_profile_spec url st :
  entries (remove_profile url st) = filter (λ u, u ≠ url) (entries st)
  ∧ remove_profile url (remove_profile url st) = remove_profile url st
  ∧ (profiles_file st = None → remove_profile url st = st)
  ∧ (∀ text,
       profiles_file st = Some text →
       Forall (λ l, line_url l ≠ url) (splitlines text) →
       profiles_file (remove_profile url st)
       = Some (join_lf (splitlines text) +:+ String LF "")
       ∧ entries (remove_profile url st) = entries st)
  ∧ (∀ url' text,
       profiles_file st = Some (remove_text url' text) →
       Forall (λ l, line_url l ≠ url) (splitlines (remove_text url' text)) →
       remove_profile url st = st).
Proof.
  split_and!.
  - apply entries_remove_profile.
  - unfold remove_profile. destruct (profiles_file st) as [text|] eqn:E; simpl.
    + unfold set_file. simpl. by rewrite remove_text_idem.
    + by rewrite E.
  - unfold remove_profile. by intros ->.
  - intros text Hf Habs. split.
    + rewrite file_remove_profile, Hf. simpl. f_equal.
      by apply remove_text_absent.
    + rewrite entries_remove_profile. apply filter_all, Forall_forall.
      intros u Hu Heq. subst u. unfold entries in Hu. rewrite Hf in Hu.
      apply (proj1 (elem_of_load_result _ _ _)) in Hu as (_ & _ & l & Hl & Hurl).
      rewrite Forall_forall in Habs. by apply (Habs l).
  - intros url' text Hf Habs. unfold remove_profile. rewrite Hf.
    rewrite remove_text_written by done. rewrite <- Hf. by destruct st.
Qed.

Lemma remove_profile_spec_witness :
  profiles_file (remove_profile Scenario.boris (init Scenario.unterminated))
  = Some (join_lf (splitlines Scenario.anna) +:+ String LF "")
  ∧ entries (remove_profile Scenario.boris (init Scenario.unterminated))
    = entries (init Scenario.unterminated).
Proof.
  refine (proj1 (proj2 (proj2 (proj2
    (remove_profile_spec Scenario.boris (init Scenario.unterminated)))))
    Scenario.anna eq_refl _).
  repeat constructor. by vm_compute.
Defined.

(** ** JudgmentProcessor: [on_callback] *)

(** C6: a reject of the current item [url] puts [url] in the retirement
    set and removes it from the file, so that neither the file nor any
    later [load_profiles] lists it, now and after any further events. *)
Theorem reject_round_trip q st url es rnd :
  judged q st url → action q = "no" →
  url ∈ reviewed_globally (on_callback q st).1
  ∧ (url ∉ entries (on_callback q st).1)
  ∧ (url ∉ load_profiles rnd (on_callback q st).1)
  ∧ url ∈ reviewed_globally (run es (on_callback q st).1).1
  ∧ (url ∉ entries (run es (on_callback q st).1).1)
  ∧ (url ∉ load_profiles rnd (run es (on_callback q st).1).1).
Proof.
  intros [Ho Hc] Hn.
  assert (url ∈ reviewed_globally (on_callback q st).1
          ∧ url ∉ entries (on_callback q st).1) as [HR HE].
  { rewrite on_callback_eq. simpl. rewrite decide_True, Hc by done.
    rewrite decide_False by (rewrite Hn; discriminate).
    rewrite decide_True by done. simpl. split.
    - rewrite reviewed_remove_profile. simpl. set_solver.
    - erewrite entries_ext; [|reflexivity].
      change (url ∉ entries (remove_profile url
        (mark_reviewed url
           (set_session (owner_id q) (session_of (owner_id q) st) st)))).
      rewrite entries_remove_profile.
      by intros [? _]%list_elem_of_filter. }
  split_and!; [done|done| | | |].
  - by intros [? _]%elem_of_load_profiles.
  - by apply run_reviewed.
  - by intros ?%run_entries.
  - by intros [?%run_entries _]%elem_of_load_profiles.
Qed.

Lemma reject_round_trip_witness :
  Scenario.anna
    ∈ reviewed_globally
        (on_callback (button "no" 1)
           (run [Start 1 []] (init Scenario.one_profile)).1).1
  ∧ Scenario.anna
    ∉ entries
        (on_callback (button "no" 1)
           (run [Start 1 []] (init Scenario.one_profile)).1).1.
Proof.
  pose proof (reject_round_trip (button "no" 1)
    (run [Start 1 []] (init Scenario.one_profile)).1 Scenario.anna [] [])
    as H.
  destruct H as (H1 & H2 & _); [by split|done|]. by split.
Defined.

(** C8: a verdict pressed by someone other than the owner, or arriving
    while the owner's session has no current item, changes neither the
    retirement set, nor the file, nor any session's queue, current item or
    approved list; nothing is sent but the alert to a foreign presser. *)
Theorem verdict_ignored q st :
  from_user q ≠ owner_id q
  ∨ truthy (current (session_of (owner_id q) st)) = None →
  reviewed_globally (on_callback q st).1 = reviewed_globally st
  ∧ profiles_file (on_callback q st).1 = profiles_file st
  ∧ (∀ u, session_of u (on_callback q st).1 = session_of u st)
  ∧ (on_callback q st).2
    = if decide (from_user q = owner_id q) then []
      else [NotYourSession (from_user q)].
Proof.
  intros Hcase. rewrite on_callback_eq. simpl.
  destruct (decide (from_user q = owner_id q)) as [Ho|Ho]; [|done].
  destruct Hcase as [?|Hc]; [done|]. rewrite Hc. simpl.
  split_and!; [done..| |done].
  intros u. rewrite session_of_set_session. by case_decide; subst.
Qed.

Lemma verdict_ignored_witness :
  reviewed_globally
    (on_callback {| from_user := 2; action := "yes"; owner_part := Some 1%Z |}
       (run [Start 1 []] (init Scenario.one_profile)).1).1
  = reviewed_globally (run [Start 1 []] (init Scenario.one_profile)).1
  ∧ session_of 1
      (on_callback {| from_user := 2; action := "yes"; owner_part := Some 1%Z |}
         (run [Start 1 []] (init Scenario.one_profile)).1).1
    = session_of 1 (run [Start 1 []] (init Scenario.one_profile)).1.
Proof.
  pose proof (verdict_ignored
    {| from_user := 2; action := "yes"; owner_part := Some 1%Z |}
    (run [Start 1 []] (init Scenario.one_profile)).1) as H.
  destruct H as (H1 & _ & H3 & _); [by left|]. split; [done|apply H3].
Defined.

(** C9: evaluation at the failing run.  The file lists anna twice.  User
    1 approves her, which takes one copy out of the queue; [send_next]
    presents the other copy, and the reject of it deletes both lines:
    anna is on the approved list and no longer in the file. *)
Theorem approved_profile_deleted_by_reject :
  entries (init Scenario.listed_twice) = [Scenario.anna; Scenario.anna]
  ∧ (run [Start 1 []; press_yes 1; Callback (button "no" 1)]
       (init Scenario.listed_twice)).2
    = [Started 1 2; Presentation 1 Scenario.anna 2;
       Added 1 Scenario.anna; Presentation 1 Scenario.anna 1;
       Removed 1; ReviewComplete 1 [Scenario.anna]]
  ∧ accepted (session_of 1
      (run [Start 1 []; press_yes 1; Callback (button "no" 1)]
         (init Scenario.listed_twice)).1)
    = [Scenario.anna]
  ∧ entries (run [Start 1 []; press_yes 1; Callback (button "no" 1)]
               (init Scenario.listed_twice)).1
    = []
  ∧ profiles_file (run [Start 1 []; press_yes 1; Callback (button "no" 1)]
                     (init Scenario.listed_twice)).1
    = Some (String LF "").
Proof. split_and!; by vm_compute. Qed.

(** What holds of the file for every input: an approve leaves it as it
    is; a handler changes it only when it processes a reject, and then by
    [remove_profile] of the rejected item; hence an entry of the file
    stays listed throughout any run in which it is not rejected.  When
    the file lists no profile twice, an entry that has been retired and
    is still listed, as an approved one is, stays listed for good. *)
Theorem accept_keeps_store :
  (∀ q st, action q = "yes" →
     profiles_file (on_callback q st).1 = profiles_file st)
  ∧ (∀ e st, profiles_file (step e st).1 ≠ profiles_file st →
       ∃ q url, e = Callback q ∧ action q = "no" ∧ judged q st url
         ∧ profiles_file (step e st).1 = profiles_file (remove_profile url st))
  ∧ (∀ es st k, k ∈ entries st → k ∉ entries (run es st).1 →
       ∃ es1 q es2, es = es1 ++ Callback q :: es2
         ∧ action q = "no" ∧ judged q (run es1 st).1 k)
  ∧ (∀ es st k, duplicate_free st → k ∈ reviewed_globally st →
       k ∈ entries st → k ∈ entries (run es st).1).
Proof.
  split_and!.
  - intros q st Hy.
    destruct (step_file_cases (Callback q) st)
      as [Heq|(q' & url & [= <-] & Hn & _)]; [done|].
    rewrite Hy in Hn. discriminate.
  - intros e st Hne. by destruct (step_file_cases e st).
  - apply run_entry_lost.
  - intros es st k Hst Hr Hin.
    destruct (decide (k ∈ entries (run es st).1)) as [|Hout]; [done|].
    destruct (run_entry_lost es st k Hin Hout)
      as (es1 & q & es2 & _ & _ & _ & Hc%truthy_Some).
    destruct (duplicate_free_run es1 st Hst) as [_ Hs].
    destruct (Hs (owner_id q)) as (_ & _ & Hcur).
    exfalso. apply (Hcur k Hc). by apply run_reviewed.
Qed.

Lemma accept_keeps_store_witness :
  profiles_file
    (on_callback (button "yes" 1)
       (run [Start 1 []] (init Scenario.one_profile)).1).1
  = Scenario.one_profile.
Proof.
  exact (proj1 accept_keeps_store (button "yes" 1)
           (run [Start 1 []] (init Scenario.one_profile)).1 eq_refl).
Defined.

(** ** GlobalRetirementSet: [mark_reviewed] *)

Lemma remove_first_absent url l : url ∉ l → remove_first url l = l.
Proof.
  induction l as [|x l IH]; simpl; [done|].
  rewrite not_elem_of_cons. intros [Hne Hl].
  rewrite decide_False by done. by rewrite IH.
Qed.

(** On a queue without repetitions the purge removes the key for good. *)
Lemma mark_reviewed_clears url st u :
  NoDup (queue (session_of u st)) →
  (url ∉ queue (session_of u (mark_reviewed url st)))
  ∧ current (session_of u (mark_reviewed url st)) ≠ Some url.
Proof.
  intros Hnd. rewrite session_of_mark_reviewed. simpl. split.
  - by apply remove_first_gone.
  - by case_decide.
Qed.

(** When the file lists no profile twice, a verdict is only ever
    processed for a key that is not retired yet: every retirement that
    [on_callback] makes is the first of its key. *)
Lemma retirement_is_first q st url :
  duplicate_free st → judged q st url → url ∉ reviewed_globally st.
Proof.
  intros [_ Hs] [_ Hc%truthy_Some].
  destruct (Hs (owner_id q)) as (_ & _ & Hcur). by apply Hcur.
Qed.

(** And there a repeated retirement would change nothing: the purge has
    an effect only at the first retirement of a key. *)
Lemma repeated_retirement_no_effect url st :
  duplicate_free st → url ∈ reviewed_globally st →
  reviewed_globally (mark_reviewed url st) = reviewed_globally st
  ∧ profiles_file (mark_reviewed url st) = profiles_file st
  ∧ ∀ u, session_of u (mark_reviewed url st) = session_of u st.
Proof.
  intros [_ Hs] Hr. split_and!; [|done|].
  - simpl. apply set_eq. intros k.
    rewrite elem_of_union, elem_of_singleton. split; [|by left].
    by intros [?| ->].
  - intros u. rewrite session_of_mark_reviewed.
    destruct (Hs u) as (_ & Hq & Hc). unfold purge.
    rewrite remove_first_absent by (intros Hin; by apply (Hq url)).
    rewrite decide_False by (intros Hcur; by apply (Hc url)).
    by destruct (session_of u st).
Qed.


(** ** QueueDistributor: [send_next] *)

(** C4: evaluation at the failing run.  The file lists anna twice.  After
    user 1 approved her she is retired, and the copy that the purge left
    heads the queue; [send_next], which does not look at the retirement
    set, presents her and leaves the queue as it is. *)
Theorem send_next_presents_retired_head :
  Scenario.anna ∈ reviewed_globally Scenario.approved_once
  ∧ queue (session_of 1 Scenario.approved_once) = [Scenario.anna]
  ∧ (send_next 1 Scenario.approved_once).2 = [Presentation 1 Scenario.anna 1]
  ∧ session_of 1 (send_next 1 Scenario.approved_once).1
    = {| queue := [Scenario.anna]; current := Some Scenario.anna;
         accepted := [Scenario.anna] |}
  ∧ (run [Start 1 []; press_yes 1] (init Scenario.listed_twice)).2
    = [Started 1 2; Presentation 1 Scenario.anna 2;
       Added 1 Scenario.anna; Presentation 1 Scenario.anna 1].
Proof.
  split_and!; [|by vm_compute..].
  apply (bool_decide_unpack _). by vm_compute.
Qed.

(** What [send_next] does on a non-empty queue, for every input: it makes
    the head current and presents it, changing neither the queue, nor
    another session, nor the retirement set, nor the file; the key it
    presents is not retired whenever no key of the queue is. *)
Lemma send_next_presents_head u st url rest :
  queue (session_of u st) = url :: rest →
  (send_next u st).2 = [Presentation u url (S (length rest))]
  ∧ session_of u (send_next u st).1
    = {| queue := url :: rest; current := Some url;
         accepted := accepted (session_of u st) |}
  ∧ (∀ v, v ≠ u → session_of v (send_next u st).1 = session_of v st)
  ∧ reviewed_globally (send_next u st).1 = reviewed_globally st
  ∧ profiles_file (send_next u st).1 = profiles_file st
  ∧ ((∀ k, k ∈ queue (session_of u st) → k ∉ reviewed_globally st) →
     url ∉ reviewed_globally (send_next u st).1).
Proof.
  intros Hq. rewrite send_next_eq. unfold announce, shown. rewrite Hq. simpl.
  split_and!; [done| | |done|done|].
  - by rewrite session_of_set_session, decide_True.
  - intros v Hv. by rewrite session_of_set_session, decide_False.
  - intros Hclean. apply Hclean. by left.
Qed.

Lemma send_next_presents_head_witness :
  (send_next 1 (run [Start 1 [1]] (init Scenario.two_profiles)).1).2
  = [Presentation 1 Scenario.anna 2]
  ∧ Scenario.anna
    ∉ reviewed_globally
        (send_next 1 (run [Start 1 [1]] (init Scenario.two_profiles)).1).1.
Proof.
  pose proof (send_next_presents_head 1
    (run [Start 1 [1]] (init Scenario.two_profiles)).1
    Scenario.anna [Scenario.boris] eq_refl) as (H1 & _ & _ & _ & _ & H6).
  split; [exact H1|]. apply H6. intros k _. vm_compute. set_solver.
Defined.

(** ** Session start: [cmd_start] *)

(** C2, as stated, fails.  When nothing is available [cmd_start] returns
    before it resets the session: user 1 has approved the only profile,
    starts again, and the approved list is still there.  And a verdict
    that was in flight is not orphaned by a restart: user 1 is shown anna,
    restarts and is shown boris; the press on the old button approves
    boris. *)
Lemma start_without_profiles_keeps_session :
  session_of 1 Scenario.all_reviewed
  = {| queue := []; current := None; accepted := [Scenario.anna] |}
  ∧ cmd_start 1 [] Scenario.all_reviewed
    = (Scenario.all_reviewed, [NoProfiles 1])
  ∧ accepted (session_of 1 (cmd_start 1 [] Scenario.all_reviewed).1) ≠ []
  ∧ (run [Start 1 [1]; Start 1 [0]; press_yes 1] (init Scenario.two_profiles)).2
    = [Started 1 2; Presentation 1 Scenario.anna 2;
       Started 1 2; Presentation 1 Scenario.boris 2;
       Added 1 Scenario.boris; Presentation 1 Scenario.anna 1].
Proof.
  split_and!; by vm_compute.
Qed.

(** C2 (amended): [cmd_start] touches neither the retirement set, nor the
    file, nor another session.  The profiles it loads are a permutation of
    the entries of the file that are not retired.  When there are none the
    session is left as it is and only the notice is sent.  Otherwise the
    queue becomes the loaded profiles, the approved list becomes empty and
    the current item is reset and at once set to the head of the new
    queue, which is presented; a verdict pressed afterwards, on whichever
    message, applies to that head. *)
Theorem cmd_start_spec u rnd st :
  reviewed_globally (cmd_start u rnd st).1 = reviewed_globally st
  ∧ profiles_file (cmd_start u rnd st).1 = profiles_file st
  ∧ (∀ v, v ≠ u → session_of v (cmd_start u rnd st).1 = session_of v st)
  ∧ load_profiles rnd st
    ≡ₚ filter (λ k, k ∉ reviewed_globally st) (entries st)
  ∧ match load_profiles rnd st with
    | [] =>
        session_of u (cmd_start u rnd st).1 = session_of u st
        ∧ (cmd_start u rnd st).2 = [NoProfiles u]
    | url :: rest =>
        session_of u (cmd_start u rnd st).1 = shown (restart (url :: rest))
        ∧ shown (restart (url :: rest))
          = {| queue := url :: rest; current := Some url; accepted := [] |}
        ∧ (cmd_start u rnd st).2
          = [Started u (S (length rest)); Presentation u url (S (length rest))]
        ∧ accepted
            (session_of u (on_callback (button "yes" u) (cmd_start u rnd st).1).1)
          = [url]
    end.
Proof.
  pose proof (elem_of_load_profiles rnd st) as Hin.
  rewrite cmd_start_eq.
  split_and!.
  - by destruct (load_profiles rnd st).
  - by destruct (load_profiles rnd st).
  - intros v Hv.
    destruct (load_profiles rnd st); simpl;
      by rewrite session_of_set_session, decide_False.
  - apply load_profiles_perm.
  - destruct (load_profiles rnd st) as [|url rest]; simpl.
    + split; [|done]. by rewrite session_of_set_session, decide_True.
    + assert (url ≠ "") as Hne.
      { eapply entries_nonempty, Hin. by left. }
      split_and!; [|done..|].
      * by rewrite session_of_set_session, decide_True.
      * rewrite on_callback_eq. simpl.
        rewrite decide_True by done.
        rewrite session_of_set_session, decide_True by done. simpl.
        destruct url as [|c url']; [by destruct Hne|]. simpl.
        rewrite session_of_set_session, decide_True by done.
        by rewrite accepted_shown.
Qed.

Lemma cmd_start_spec_witness :
  session_of 2 (cmd_start 1 [1] (init Scenario.two_profiles)).1
  = session_of 2 (init Scenario.two_profiles).
Proof.
  refine (proj1 (proj2 (proj2
    (cmd_start_spec 1 [1] (init Scenario.two_profiles)))) 2%Z _).
  by vm_compute.
Defined.

(** ** The current item *)

Lemma send_next_done u st :
  queue (session_of u st) = [] →
  session_of u (send_next u st).1 = session_of u st
  ∧ (send_next u st).2 = [ReviewComplete u (accepted (session_of u st))].
Proof.
  intros Hq. rewrite send_next_eq. unfold announce, shown. rewrite Hq. simpl.
  by rewrite session_of_set_session, decide_True.
Qed.

(** Skipping the last queued item reports completion and keeps
    [current]. *)
Lemma cmd_skip_last u st k :
  queue (session_of u st) = [k] →
  session_of u (cmd_skip u st).1
  = {| queue := []; current := current (session_of u st);
       accepted := accepted (session_of u st) |}
  ∧ (cmd_skip u st).2 = [ReviewComplete u (accepted (session_of u st))].
Proof.
  intros Hq. rewrite cmd_skip_eq. unfold announce, shown, popped.
  rewrite Hq. simpl. by rewrite session_of_set_session, decide_True.
Qed.

(** C3: evaluation at the failing run.  User 1 starts on a file with one
    profile and skips it: completion is reported and the queue is empty,
    but [current] still holds the skipped profile, and a later press of
    the approve button approves and retires it. *)
Theorem skipped_item_stays_current :
  (run [Start 1 []; Skip 1] (init Scenario.one_profile)).2
  = [Started 1 1; Presentation 1 Scenario.anna 1; ReviewComplete 1 []]
  ∧ session_of 1 Scenario.skipped_last
    = {| queue := []; current := Some Scenario.anna; accepted := [] |}
  ∧ (step (press_yes 1) Scenario.skipped_last).2
    = [Added 1 Scenario.anna; ReviewComplete 1 [Scenario.anna]]
  ∧ Scenario.anna
    ∈ reviewed_globally (step (press_yes 1) Scenario.skipped_last).1.
Proof.
  split_and!; [by vm_compute..|].
  apply (bool_decide_unpack _). by vm_compute.
Qed.

(** ** Retired keys and the queues *)

Lemma duplicate_free_queues_clean st : duplicate_free st → queues_clean st.
Proof. intros [_ Hs] u k Hk. destruct (Hs u) as (_ & Hq & _). by apply Hq. Qed.

Lemma announce_presentation u s v k n :
  announce u s = Presentation v k n → v = u ∧ current (shown s) = Some k.
Proof.
  unfold announce, shown. destruct (queue s) as [|url rest].
  - intros Heq. discriminate Heq.
  - intros [= ? ? ?]. by subst.
Qed.

(** A presentation sent by a handler is the current item of its user
    when the handler returns. *)
Lemma step_presentation e st u k n :
  Presentation u k n ∈ (step e st).2 →
  current (session_of u (step e st).1) = Some k.
Proof.
  destruct e as [v rnd|v|v|v|q]; simpl.
  - rewrite cmd_start_eq. destruct (load_profiles rnd st) as [|url rest]; simpl.
    + by intros [=]%list_elem_of_singleton.
    + rewrite !elem_of_cons. intros [[=]|[Heq|[]%elem_of_nil]].
      symmetry in Heq. apply announce_presentation in Heq as [-> Hc].
      by rewrite session_of_set_session, decide_True.
  - rewrite cmd_skip_eq. simpl. intros Heq%list_elem_of_singleton.
    symmetry in Heq. apply announce_presentation in Heq as [-> Hc].
    by rewrite session_of_set_session, decide_True.
  - unfold cmd_status. rewrite get_session_eq. simpl.
    by intros [=]%list_elem_of_singleton.
  - unfold cmd_accepted. rewrite get_session_eq. simpl.
    by intros [=]%list_elem_of_singleton.
  - rewrite on_callback_eq. simpl. case_decide.
    + destruct (truthy _) as [url|]; [|by intros []%elem_of_nil].
      repeat case_decide; simpl; rewrite ?elem_of_cons.
      * intros [[=]|[Heq|[]%elem_of_nil]].
        symmetry in Heq. apply announce_presentation in Heq as [-> Hc].
        by rewrite session_of_set_session, decide_True.
      * intros [[=]|[Heq|[]%elem_of_nil]].
        symmetry in Heq. apply announce_presentation in Heq as [-> Hc].
        by rewrite session_of_set_session, decide_True.
      * intros [Heq|[]%elem_of_nil].
        symmetry in Heq. apply announce_presentation in Heq as [-> Hc].
        by rewrite session_of_set_session, decide_True.
    + by intros [=]%list_elem_of_singleton.
Qed.

(** When the file lists no profile twice, no handler presents a retired
    key, and a key once retired is never presented again. *)
Lemma duplicate_free_presented e st u k n :
  duplicate_free st →
  Presentation u k n ∈ (step e st).2 →
  k ∉ reviewed_globally (step e st).1.
Proof.
  intros Hst Hp. apply step_presentation in Hp.
  by eapply (duplicate_free_step e st Hst).
Qed.

Lemma duplicate_free_dedup es e st u k n :
  duplicate_free st → k ∈ reviewed_globally st →
  Presentation u k n ∉ (step e (run es st).1).2.
Proof.
  intros Hst Hk Hp.
  apply duplicate_free_presented in Hp; [|by apply duplicate_free_run].
  apply Hp. by apply step_reviewed, run_reviewed.
Qed.

Lemma reachable_queues_clean file es :
  NoDup (entries (init file)) → queues_clean (run es (init file)).1.
Proof.
  intros H.
  by apply duplicate_free_queues_clean, duplicate_free_run, duplicate_free_init.
Qed.

(** C1: evaluation at the failing run.  The file lists anna twice.  User 2
    is shown boris with anna queued twice behind him; user 1 approves
    anna, which retires her and takes one copy out of user 2's queue; when
    user 2 then approves boris, [send_next] presents anna to user 2. *)
Theorem retired_profile_shown_to_other_user :
  (run [Start 2 [2; 1]; Start 1 [0; 1]; press_yes 1]
     (init Scenario.boris_then_anna_twice)).2
  = [Started 2 3; Presentation 2 Scenario.boris 3;
     Started 1 3; Presentation 1 Scenario.anna 3;
     Added 1 Scenario.anna; Presentation 1 Scenario.anna 2]
  ∧ Scenario.anna ∈ reviewed_globally Scenario.anna_retired
  ∧ queue (session_of 2 Scenario.anna_retired) = [Scenario.boris; Scenario.anna]
  ∧ (step (press_yes 2) Scenario.anna_retired).2
    = [Added 2 Scenario.boris; Presentation 2 Scenario.anna 1]
  ∧ current (session_of 2 (step (press_yes 2) Scenario.anna_retired).1)
    = Some Scenario.anna.
Proof.
  split_and!; [by vm_compute| |by vm_compute..].
  apply (bool_decide_unpack _). by vm_compute.
Qed.

(** C10: evaluation at the failing run.  After user 1 started on a file
    that lists anna twice and approved her, anna is retired and still in
    user 1's queue. *)
Theorem queue_keeps_retired_duplicate :
  reachable Scenario.approved_once
  ∧ Scenario.anna ∈ queue (session_of 1 Scenario.approved_once)
  ∧ Scenario.anna ∈ reviewed_globally Scenario.approved_once
  ∧ ¬ queues_clean Scenario.approved_once.
Proof.
  assert (Scenario.anna ∈ queue (session_of 1 Scenario.approved_once)) as Hq.
  { apply (bool_decide_unpack _). by vm_compute. }
  assert (Scenario.anna ∈ reviewed_globally Scenario.approved_once) as Hr.
  { apply (bool_decide_unpack _). by vm_compute. }
  split_and!; [|done..|].
  - by exists Scenario.listed_twice, [Start 1 []; press_yes 1].
  - intros Hclean. by apply (Hclean 1%Z Scenario.anna).
Qed.

(** * Further properties of the handlers *)

(** The ten ways a handler can run: [/start] with nothing or something
    loaded, [/skip], [/status], [/accepted], a processed approve, a
    processed reject, a processed press of another action, a press with no
    current item, and a press by a foreign user. *)
Ltac handler_cases e st :=
  destruct e as [?u ?rnd|?u|?u|?u|?q]; simpl;
  [ rewrite cmd_start_eq;
    destruct (load_profiles _ st) as [|?url ?rest] eqn:?Hload
  | rewrite cmd_skip_eq
  | unfold cmd_status; rewrite get_session_eq
  | unfold cmd_accepted; rewrite get_session_eq
  | rewrite on_callback_eq; simpl;
    destruct (decide (from_user _ = owner_id _)) as [?Ho|?Ho];
    [ destruct (truthy _) as [?url|] eqn:?Hcur;
      [ destruct (decide (action _ = "yes")) as [?Hy|?Hy];
        [| destruct (decide (action _ = "no")) as [?Hn|?Hn] ] |] |] ];
  simpl.

Lemma queue_shown s : queue (shown s) = queue s.
Proof. unfold shown. by destruct (queue s) eqn:E. Qed.

Lemma sessions_remove_profile url st :
  sessions (remove_profile url st) = sessions st.
Proof. unfold remove_profile. by destruct (profiles_file st). Qed.

Lemma step_dom e st : dom (sessions st) ⊆ dom (sessions (step e st).1).
Proof.
  handler_cases e st;
    rewrite ?sessions_remove_profile; simpl;
    rewrite ?dom_insert_L, ?dom_fmap_L, ?dom_insert_L; set_solver.
Qed.

(** X1: a session, once created, is never dropped: the users that have a
    session keep it through every run, every command registers its user,
    and so does a button press by the owner. *)
Theorem sessions_never_dropped :
  (∀ es st, dom (sessions st) ⊆ dom (sessions (run es st).1))
  ∧ (∀ e st, (∀ q, e = Callback q → from_user q = owner_id q) →
       event_user e ∈ dom (sessions (step e st).1)).
Proof.
  split.
  - intros es. induction es as [|e es IH]; intros st; [done|].
    rewrite run_cons. etrans; [apply (step_dom e st)|apply IH].
  - intros e st Hown.
    handler_cases e st;
      rewrite ?sessions_remove_profile; simpl;
      rewrite ?dom_insert_L, ?dom_fmap_L, ?dom_insert_L;
      try (by destruct Ho; apply Hown); set_solver.
Qed.

Lemma sessions_never_dropped_witness :
  (1%Z : Z) ∈ dom (sessions (step (Status 1) (init None)).1).
Proof.
  apply (proj2 sessions_never_dropped (Status 1) (init None)).
  intros q Hq. discriminate Hq.
Defined.

(** X2: the retirement set changes only when a verdict is processed, and
    then by adding the judged item; commands never retire anything, and
    along any run the set only grows. *)
Theorem retirement_only_by_verdict :
  (∀ e st,
     reviewed_globally (step e st).1 = reviewed_globally st
     ∨ ∃ q url, e = Callback q ∧ judged q st url
         ∧ (action q = "yes" ∨ action q = "no")
         ∧ reviewed_globally (step e st).1 = reviewed_globally st ∪ {[url]})
  ∧ (∀ es st, reviewed_globally st ⊆ reviewed_globally (run es st).1).
Proof.
  split; [|intros es st; apply run_reviewed].
  intros e st. handler_cases e st; rewrite ?reviewed_remove_profile; simpl;
    try (by left); right; exists q, url; by split_and!; auto.
Qed.

Lemma step_entries_sublist e st :
  entries (step e st).1 `sublist_of` entries st.
Proof.
  destruct (step_file_cases e st) as [Heq|(q & url & _ & _ & _ & Heq)];
    rewrite (entries_ext _ _ Heq); [done|].
  rewrite entries_remove_profile. apply sublist_filter.
Qed.

(** X3: no handler adds a line to the file or reorders it: after any run
    the entries of the file are a subsequence of the entries before. *)
Theorem file_entries_only_shrink es st :
  entries (run es st).1 `sublist_of` entries st.
Proof.
  revert st. induction es as [|e es IH]; intros st; [done|].
  rewrite run_cons. etrans; [apply IH|apply step_entries_sublist].
Qed.

(** X4: [/skip] judges nothing.  It leaves the retirement set, the file,
    the sessions of other users and the approved list as they are and
    only drops the head of the queue; a profile that is listed and not
    retired is therefore loaded again by the next [/start]. *)
Theorem skip_is_non_destructive u st :
  reviewed_globally (cmd_skip u st).1 = reviewed_globally st
  ∧ profiles_file (cmd_skip u st).1 = profiles_file st
  ∧ (∀ v, v ≠ u → session_of v (cmd_skip u st).1 = session_of v st)
  ∧ accepted (session_of u (cmd_skip u st).1) = accepted (session_of u st)
  ∧ queue (session_of u (cmd_skip u st).1) = tail (queue (session_of u st))
  ∧ (∀ k rnd, k ∈ entries st → k ∉ reviewed_globally st →
       k ∈ load_profiles rnd (cmd_skip u st).1).
Proof.
  rewrite cmd_skip_eq. simpl. split_and!; [done|done| | | |].
  - intros v Hv. by rewrite session_of_set_session, decide_False.
  - by rewrite session_of_set_session, decide_True, accepted_shown.
  - by rewrite session_of_set_session, decide_True, queue_shown.
  - intros k rnd Hk Hr. by apply elem_of_load_profiles.
Qed.

Lemma skip_is_non_destructive_witness :
  Scenario.anna
    ∈ load_profiles []
        (cmd_skip 1 (run [Start 1 []] (init Scenario.one_profile)).1).1.
Proof.
  apply (proj2 (proj2 (proj2 (proj2 (proj2
    (skip_is_non_destructive 1
       (run [Start 1 []] (init Scenario.one_profile)).1)))))).
  - apply (bool_decide_unpack _). by vm_compute.
  - apply (bool_decide_unpack _). by vm_compute.
Defined.

(** X5: a press by the owner whose action is neither "yes" nor "no" falls
    through both branches of [on_callback]: nothing is approved, retired
    or removed, and the head of the queue is presented again, exactly as
    [send_next] does. *)
Theorem unknown_action_only_presents q st url :
  judged q st url → action q ≠ "yes" → action q ≠ "no" →
  on_callback q st = send_next (owner_id q) st.
Proof.
  intros [Ho Hc] Hy Hn. rewrite on_callback_eq, send_next_eq. simpl.
  by rewrite decide_True, Hc, !decide_False.
Qed.

Lemma unknown_action_only_presents_witness :
  on_callback (button "later" 1)
    (run [Start 1 []] (init Scenario.one_profile)).1
  = send_next 1 (run [Start 1 []] (init Scenario.one_profile)).1.
Proof.
  apply (unknown_action_only_presents (button "later" 1)
           (run [Start 1 []] (init Scenario.one_profile)).1 Scenario.anna).
  - split; by vm_compute.
  - discriminate.
  - discriminate.
Defined.

(** X6: a session belongs to its user.  A handler that works for another
    user either leaves it as it is or, when it processes a verdict,
    purges the judged item from it. *)
Theorem session_isolation e st v :
  v ≠ event_user e →
  session_of v (step e st).1 = session_of v st
  ∨ ∃ q url, e = Callback q ∧ judged q st url
      ∧ (action q = "yes" ∨ action q = "no")
      ∧ session_of v (step e st).1 = purge url (session_of v st).
Proof.
  intros Hv. revert Hv. handler_cases e st; intros Hv;
    rewrite ?session_of_set_session, ?decide_False by done;
    try (by left).
  - right. exists q, url. split_and!; [done|done|by left|].
    rewrite session_of_mark_reviewed.
    by rewrite session_of_set_session, decide_False.
  - right. exists q, url. split_and!; [done|done|by right|].
    rewrite session_of_remove_profile, session_of_mark_reviewed.
    by rewrite session_of_set_session, decide_False.
Qed.

Lemma session_isolation_witness :
  session_of 2 (step (Skip 1) (run [Start 1 []; Start 2 []]
                                 (init Scenario.two_profiles)).1).1
  = session_of 2 (run [Start 1 []; Start 2 []] (init Scenario.two_profiles)).1.
Proof.
  destruct (session_isolation (Skip 1)
    (run [Start 1 []; Start 2 []] (init Scenario.two_profiles)).1 2%Z)
    as [H|(q & url & H & _)]; [discriminate|exact H|discriminate H].
Defined.

Lemma remove_first_sublist url l : remove_first url l `sublist_of` l.
Proof.
  induction l as [|x l IH]; simpl; [done|].
  destruct (decide (x = url)); [by apply sublist_cons|by apply sublist_skip].
Qed.

Lemma tail_sublist {A} (l : list A) : tail l `sublist_of` l.
Proof. destruct l; [done|]. by apply sublist_cons. Qed.

(** Reads [session_of] through the updates of a handler. *)
Ltac session_simpl :=
  repeat (progress
    (rewrite ?session_of_remove_profile, ?session_of_mark_reviewed,
       ?session_of_set_session, ?queue_shown, ?accepted_shown;
     try case_decide; simplify_eq; simpl)).

Lemma step_queue_sublist e st u :
  ¬ starts u e →
  queue (session_of u (step e st).1) `sublist_of` queue (session_of u st).
Proof.
  intros Hs. revert Hs. handler_cases e st; intros Hs; session_simpl;
    try done; try (by destruct Hs);
    first [apply tail_sublist | apply remove_first_sublist].
Qed.

(** X7: between two of a user's own [/start]s the queue is never
    refilled or reordered: after any run without a [/start] of [u], the
    queue of [u] is a subsequence of what it was. *)
Theorem queue_order_kept es st u :
  Forall (λ e, ¬ starts u e) es →
  queue (session_of u (run es st).1) `sublist_of` queue (session_of u st).
Proof.
  intros H. revert st. induction H as [|e es He _ IH]; intros st; [done|].
  rewrite run_cons. etrans; [apply IH|by apply step_queue_sublist].
Qed.

Lemma queue_order_kept_witness :
  queue (session_of 1
    (run [Skip 1; Start 2 []] (run [Start 1 [1]] (init Scenario.two_profiles)).1).1)
  `sublist_of` [Scenario.anna; Scenario.boris].
Proof.
  apply (queue_order_kept [Skip 1; Start 2 []]
           (run [Start 1 [1]] (init Scenario.two_profiles)).1 1%Z).
  repeat constructor; simpl; [tauto|discriminate].
Defined.

Lemma shown_shown s : shown (shown s) = shown s.
Proof. unfold shown. by destruct (queue s) eqn:E; simpl; rewrite ?E. Qed.

Lemma announce_shown u s : announce u (shown s) = announce u s.
Proof. unfold announce. by rewrite queue_shown, accepted_shown. Qed.

(** X8: presenting is stable: a second [send_next] for the same user
    sends the same message and leaves the state of the first. *)
Theorem send_next_twice u st :
  send_next u (send_next u st).1 = send_next u st.
Proof.
  rewrite !send_next_eq. simpl.
  rewrite session_of_set_session, decide_True by done.
  by rewrite shown_shown, announce_shown, set_session_twice.
Qed.

Lemma announce_presentation_head u s v k n :
  announce u s = Presentation v k n →
  v = u ∧ head (queue s) = Some k ∧ n = length (queue s).
Proof.
  unfold announce. destruct (queue s) as [|url rest].
  - intros Heq. discriminate Heq.
  - intros [= ? ? ?]. by subst.
Qed.

(** X9: a handler presents at most one profile, as its last message, to
    the user it works for; on return that profile is the user's current
    item and the head of the queue, and the count shown with it is the
    length of the queue. *)
Theorem presentation_is_current e st u k n :
  Presentation u k n ∈ (step e st).2 →
  u = event_user e
  ∧ last (step e st).2 = Some (Presentation u k n)
  ∧ current (session_of u (step e st).1) = Some k
  ∧ head (queue (session_of u (step e st).1)) = Some k
  ∧ n = length (queue (session_of u (step e st).1)).
Proof.
  intros Hin. pose proof (step_presentation e st u k n Hin) as Hnow.
  revert Hin Hnow. handler_cases e st;
    rewrite ?elem_of_cons, ?elem_of_nil;
    intros Hin Hnow;
    repeat match goal with
      | H : _ ∨ _ |- _ => destruct H as [H|H]
      | H : False |- _ => destruct H
      | H : Presentation _ _ _ = _ |- _ =>
          first [discriminate H | symmetry in H]
      end;
    match goal with
    | H : announce _ _ = Presentation _ _ _ |- _ =>
        pose proof (announce_presentation_head _ _ _ _ _ H) as (-> & Hh & ->);
        rewrite H
    end;
    rewrite session_of_set_session, decide_True, queue_shown by done;
    rewrite session_of_set_session, decide_True in Hnow by done;
    by split_and!.
Qed.

Lemma presentation_is_current_witness :
  current (session_of 1 (step (Start 1 [1]) (init Scenario.two_profiles)).1)
  = Some Scenario.anna.
Proof.
  pose proof (presentation_is_current (Start 1 [1])
    (init Scenario.two_profiles) 1%Z Scenario.anna 2) as H.
  assert (Presentation 1 Scenario.anna 2
            ∈ (step (Start 1 [1]) (init Scenario.two_profiles)).2) as Hin.
  { vm_compute. apply list_elem_of_further, list_elem_of_here. }
  exact (proj1 (proj2 (proj2 (H Hin)))).
Defined.

Lemma load_skips_retired es st k rnd :
  k ∈ reviewed_globally st → k ∉ load_profiles rnd (run es st).1.
Proof.
  intros Hk [_ Hn]%elem_of_load_profiles. apply Hn. by apply run_reviewed.
Qed.

(** X10: a retired key is never loaded again: whatever happens after a
    key entered the retirement set, [load_profiles] does not return it,
    so no later [/start] of any user queues it. *)
Theorem retired_never_loaded es st k rnd :
  k ∈ reviewed_globally st → k ∉ load_profiles rnd (run es st).1.
Proof. apply load_skips_retired. Qed.

Lemma retired_never_loaded_witness :
  Scenario.anna
    ∉ load_profiles [] (run [Start 2 []; Skip 2] Scenario.approved_once).1.
Proof.
  apply (retired_never_loaded [Start 2 []; Skip 2] Scenario.approved_once).
  apply (bool_decide_unpack _). by vm_compute.
Defined.

(** X11: a processed approve appends the judged item to the owner's
    approved list, retires it and leaves the file alone; the item is then
    never loaded again. *)
Theorem approve_round_trip q st url es rnd :
  judged q st url → action q = "yes" →
  accepted (session_of (owner_id q) (on_callback q st).1)
  = accepted (session_of (owner_id q) st) ++ [url]
  ∧ url ∈ reviewed_globally (on_callback q st).1
  ∧ entries (on_callback q st).1 = entries st
  ∧ (url ∉ load_profiles rnd (run es (on_callback q st).1).1).
Proof.
  intros [Ho Hc] Hy.
  assert (url ∈ reviewed_globally (on_callback q st).1) as HR.
  { rewrite on_callback_eq. simpl. rewrite decide_True, Hc, decide_True by done.
    simpl. set_solver. }
  split_and!; [| done | |by apply load_skips_retired].
  - rewrite on_callback_eq. simpl. rewrite decide_True, Hc, decide_True by done.
    simpl. by rewrite session_of_set_session, decide_True, accepted_shown.
  - apply entries_ext.
    destruct (step_file_cases (Callback q) st)
      as [Heq|(q' & url' & [= <-] & Hn & _)]; [done|].
    rewrite Hy in Hn. discriminate Hn.
Qed.

Lemma approve_round_trip_witness :
  accepted (session_of 1
    (on_callback (button "yes" 1)
       (run [Start 1 []] (init Scenario.one_profile)).1).1)
  = [Scenario.anna].
Proof.
  pose proof (approve_round_trip (button "yes" 1)
    (run [Start 1 []] (init Scenario.one_profile)).1
    Scenario.anna [] []) as H.
  assert (judged (button "yes" 1)
            (run [Start 1 []] (init Scenario.one_profile)).1 Scenario.anna)
    as Hj by (split; by vm_compute).
  exact (proj1 (H Hj eq_refl)).
Defined.

(** * Invariants of the reachable states *)

Section well_formed_facts.

Implicit Types (R : gset string) (s : Session) (k url : string).

Lemma session_wf_new R : session_wf R new_session.
Proof. split_and!; simpl; [by intros k ?%elem_of_nil|done|by intros k ?%elem_of_nil]. Qed.

Lemma session_wf_mono R R' s : R ⊆ R' → session_wf R s → session_wf R' s.
Proof.
  intros HR (Hq & Hc & Ha). split_and!; [done..|].
  intros k Hk. destruct (Ha k Hk). split; [done|]. by apply HR.
Qed.

Lemma session_wf_shown R s : session_wf R s → session_wf R (shown s).
Proof.
  intros Hwf. unfold shown. destruct (queue s) as [|url rest] eqn:E; [done|].
  destruct Hwf as (Hq & Hc & Ha). rewrite E in Hq.
  split_and!; simpl; [done| |done].
  intros k [= <-]. apply Hq. by left.
Qed.

Lemma session_wf_popped R s : session_wf R s → session_wf R (popped s).
Proof.
  intros (Hq & Hc & Ha). split_and!; simpl; [|done..].
  intros k Hk. apply Hq. destruct (queue s) as [|x rest]; [done|].
  by apply elem_of_cons; right.
Qed.

Lemma session_wf_purge R url s : session_wf R s → session_wf R (purge url s).
Proof.
  intros (Hq & Hc & Ha). split_and!; simpl; [| |done].
  - intros k Hk%remove_first_subset. by apply Hq.
  - intros k. case_decide; [done|]. apply Hc.
Qed.

Lemma session_wf_approve R url s :
  url ≠ "" → url ∈ R → session_wf R s → session_wf R (approve url s).
Proof.
  intros Hne Hin (Hq & Hc & Ha). split_and!; simpl; [done..|].
  intros k [Hk| ->%list_elem_of_singleton]%elem_of_app; [by apply Ha|done].
Qed.

Lemma truthy_nonempty o url : truthy o = Some url → url ≠ "".
Proof.
  destruct o as [x|]; simpl; [|done]. destruct x; simpl; [done|].
  by intros [= <-].
Qed.

Lemma well_formed_step e st : well_formed st → well_formed (step e st).1.
Proof.
  intros Hwf.
  assert (∀ rnd k, k ∈ load_profiles rnd st → k ≠ "") as Hload'.
  { intros rnd k [Hk _]%elem_of_load_profiles. by eapply entries_nonempty. }
  handler_cases e st; intros v; session_simpl;
    rewrite ?reviewed_remove_profile; simpl;
    try apply session_wf_shown; try apply session_wf_popped;
    try (apply Hwf).
  - split_and!; simpl; [|done|by intros k ?%elem_of_nil].
    intros k Hk. apply (Hload' rnd). by rewrite Hload.
  - apply session_wf_purge, session_wf_approve;
      [by eapply truthy_nonempty|set_solver|].
    eapply session_wf_mono; [|apply Hwf]. set_solver.
  - apply session_wf_purge. eapply session_wf_mono; [|apply Hwf]. set_solver.
  - apply session_wf_purge. eapply session_wf_mono; [|apply Hwf]. set_solver.
  - apply session_wf_purge. eapply session_wf_mono; [|apply Hwf]. set_solver.
Qed.

Lemma well_formed_run es st : well_formed st → well_formed (run es st).1.
Proof.
  revert st. induction es as [|e es IH]; intros st Hst; [done|].
  rewrite run_cons. by apply IH, well_formed_step.
Qed.

Lemma well_formed_init file : well_formed (init file).
Proof. intros u. apply session_wf_new. Qed.

End well_formed_facts.

(** X12: in every reachable state the keys in a session are non-empty
    strings, so the test [if not session.current] of [on_callback] fires
    exactly when there is no current item. *)
Theorem reachable_keys_nonempty file es u :
  (∀ k, k ∈ queue (session_of u (run es (init file)).1) → k ≠ "")
  ∧ (∀ k, k ∈ accepted (session_of u (run es (init file)).1) → k ≠ "")
  ∧ truthy (current (session_of u (run es (init file)).1))
    = current (session_of u (run es (init file)).1).
Proof.
  destruct (well_formed_run es (init file) (well_formed_init file) u)
    as (Hq & Hc & Ha).
  split_and!; [done| |].
  - intros k Hk. by destruct (Ha k Hk).
  - destruct (current _) as [k|] eqn:E; [|done]. simpl.
    specialize (Hc k eq_refl). by destruct k.
Qed.

(** X13: in every reachable state every approved profile is retired:
    what a user's approved list shows can no longer be queued for
    anyone. *)
Theorem approved_are_retired file es u k :
  k ∈ accepted (session_of u (run es (init file)).1) →
  k ∈ reviewed_globally (run es (init file)).1.
Proof.
  intros Hk.
  destruct (well_formed_run es (init file) (well_formed_init file) u)
    as (_ & _ & Ha).
  by apply Ha.
Qed.

Lemma approved_are_retired_witness :
  Scenario.anna ∈ reviewed_globally
    (run [Start 1 []; press_yes 1] (init Scenario.one_profile)).1.
Proof.
  apply (approved_are_retired Scenario.one_profile
           [Start 1 []; press_yes 1] 1%Z Scenario.anna).
  apply (bool_decide_unpack _). by vm_compute.
Defined.

Section consistent_facts.

Implicit Types (E : list string) (s : Session) (k url : string).

Lemma entries_set_session u s st : entries (set_session u s st) = entries st.
Proof. done. Qed.

Lemma entries_mark_reviewed url st : entries (mark_reviewed url st) = entries st.
Proof. done. Qed.

Lemma session_listed_shown E s : session_listed E s → session_listed E (shown s).
Proof.
  intros Hl. unfold shown. destruct (queue s) as [|url rest] eqn:Eq; [done|].
  destruct Hl as (Hq & Hc & Ha). rewrite Eq in Hq.
  split_and!; simpl; [done| |done].
  intros k [= <-]. apply Hq. by left.
Qed.

Lemma session_listed_popped E s : session_listed E s → session_listed E (popped s).
Proof.
  intros (Hq & Hc & Ha). split_and!; simpl; [|done..].
  intros k Hk. apply Hq. destruct (queue s) as [|x rest]; [done|].
  by apply elem_of_cons; right.
Qed.

Lemma session_listed_purge E url s :
  session_listed E s → session_listed E (purge url s).
Proof.
  intros (Hq & Hc & Ha). split_and!; simpl; [| |done].
  - intros k Hk%remove_first_subset. by apply Hq.
  - intros k. case_decide; [done|]. apply Hc.
Qed.

Lemma session_listed_approve E url s :
  current s = Some url → session_listed E s → session_listed E (approve url s).
Proof.
  intros Hcur (Hq & Hc & Ha). split_and!; simpl; [done..|].
  intros k [Hk| ->%list_elem_of_singleton]%elem_of_app; [by apply Ha|by apply Hc].
Qed.

(** Every session after a handler holds keys that the file listed before
    the handler ran. *)
Lemma step_listed e st :
  (∀ u, session_listed (entries st) (session_of u st)) →
  ∀ v, session_listed (entries st) (session_of v (step e st).1).
Proof.
  intros Hl.
  handler_cases e st; intros v; session_simpl;
    try apply session_listed_shown; try apply session_listed_popped;
    try apply session_listed_purge; try (apply Hl).
  - split_and!; simpl; [|done|by intros k ?%elem_of_nil].
    intros k Hk. rewrite <- Hload in Hk.
    by apply elem_of_load_profiles in Hk as [? _].
  - apply session_listed_approve; [by apply truthy_Some|apply Hl].
Qed.

Lemma reject_retires q st url :
  judged q st url → action q = "no" →
  url ∈ reviewed_globally (on_callback q st).1.
Proof.
  intros [Ho Hc] Hn. rewrite on_callback_eq. simpl.
  rewrite decide_True, Hc by done.
  rewrite decide_False by (rewrite Hn; discriminate).
  rewrite decide_True by done. simpl.
  rewrite reviewed_remove_profile. simpl. set_solver.
Qed.

Lemma reject_accepted q st url v :
  judged q st url → action q = "no" →
  accepted (session_of v (on_callback q st).1) = accepted (session_of v st).
Proof.
  intros [Ho Hc] Hn. rewrite on_callback_eq. simpl.
  rewrite decide_True, Hc by done.
  rewrite decide_False by (rewrite Hn; discriminate).
  rewrite decide_True by done. simpl. by session_simpl.
Qed.

Lemma step_exclusive e st :
  duplicate_free st → well_formed st →
  approvals_exclusive st → approvals_exclusive (step e st).1.
Proof.
  intros [_ Hok] Hwf [Hnd Hex].
  assert (∀ u k, k ∈ accepted (session_of u st) → k ∈ reviewed_globally st)
    as Hacc.
  { intros u k Hk. destruct (Hwf u) as (_ & _ & Ha). by destruct (Ha k Hk). }
  assert (∀ u k, truthy (current (session_of u st)) = Some k →
                 k ∉ reviewed_globally st) as Hcurr.
  { intros u k Hk%truthy_Some. destruct (Hok u) as (_ & _ & Hc). by apply Hc. }
  handler_cases e st; (split; [intros v|intros v w k Hvw]); session_simpl;
    rewrite ?elem_of_app, ?list_elem_of_singleton;
    try (by apply Hnd); try (by apply Hex);
    try (by constructor); try (by intros ?%elem_of_nil);
    try (by intros _ ?%elem_of_nil).
  - apply NoDup_app. split_and!; [apply Hnd| |apply NoDup_singleton].
    intros k Hk ->%list_elem_of_singleton.
    by apply (Hcurr _ _ Hcur), (Hacc _ _ Hk).
  - intros [Hk| ->]; [by apply (Hex _ _ _ Hvw)|].
    intros Hin. by apply (Hcurr _ _ Hcur), (Hacc _ _ Hin).
  - intros Hk [Hin| ->]; [by apply (Hex _ _ _ Hvw Hk)|].
    by apply (Hcurr _ _ Hcur), (Hacc _ _ Hk).
Qed.

Lemma consistent_step e st : consistent st → consistent (step e st).1.
Proof.
  intros (Hdf & Hwf & Hl & Hex).
  pose proof (duplicate_free_step e st Hdf) as Hdf'.
  pose proof (well_formed_step e st Hwf) as Hwf'.
  pose proof (step_listed e st Hl) as Hl'.
  split_and!; [done|done| |by apply step_exclusive].
  destruct (step_file_cases e st) as [Heq|(q & url & -> & Hn & Hj & Heq)];
    rewrite (entries_ext _ _ Heq); [done|].
  rewrite entries_remove_profile. intros v.
  pose proof (reject_retires q st url Hj Hn) as Hret.
  destruct (Hl' v) as (Hq & Hc & Ha).
  destruct Hdf' as [_ Hok']. destruct (Hok' v) as (_ & Hqc & Hcc).
  split_and!.
  - intros k Hk. apply list_elem_of_filter. split; [|by apply Hq].
    intros ->. by apply (Hqc url Hk).
  - intros k Hk. apply list_elem_of_filter. split; [|by apply Hc].
    intros ->. by apply (Hcc url Hk).
  - intros k Hk. apply list_elem_of_filter. split; [|by apply Ha].
    intros ->. simpl in Hk. rewrite (reject_accepted q st url v Hj Hn) in Hk.
    destruct Hj as [_ Hcur%truthy_Some].
    destruct Hdf as [_ Hok]. destruct (Hok (owner_id q)) as (_ & _ & Hcur').
    apply (Hcur' url Hcur).
    destruct (Hwf v) as (_ & _ & Hacc). by destruct (Hacc url Hk).
Qed.

Lemma consistent_run es st : consistent st → consistent (run es st).1.
Proof.
  revert st. induction es as [|e es IH]; intros st Hst; [done|].
  rewrite run_cons. by apply IH, consistent_step.
Qed.

Lemma consistent_init file :
  NoDup (entries (init file)) → consistent (init file).
Proof.
  intros Hnd. split_and!.
  - by apply duplicate_free_init.
  - apply well_formed_init.
  - intros u. split_and!; simpl; [by intros k ?%elem_of_nil|done|].
    by intros k ?%elem_of_nil.
  - split; [intros u; constructor|]. by intros u v k _ ?%elem_of_nil.
Qed.

End consistent_facts.

(** X14: first judgment wins.  When the file lists no profile twice, no
    profile is ever approved twice: the approved list of a user has no
    repetition and the approved lists of two users share no profile. *)
Theorem approvals_are_exclusive file es :
  NoDup (entries (init file)) →
  (∀ u, NoDup (accepted (session_of u (run es (init file)).1)))
  ∧ (∀ u v k, u ≠ v →
       k ∈ accepted (session_of u (run es (init file)).1) →
       k ∉ accepted (session_of v (run es (init file)).1)).
Proof.
  intros Hnd.
  by destruct (consistent_run es (init file) (consistent_init file Hnd))
    as (_ & _ & _ & ?).
Qed.

Lemma approvals_are_exclusive_witness :
  NoDup (accepted (session_of 1
    (run [Start 1 []; press_yes 1; press_yes 1] (init Scenario.two_profiles)).1)).
Proof.
  pose proof (approvals_are_exclusive Scenario.two_profiles
    [Start 1 []; press_yes 1; press_yes 1]) as H.
  assert (NoDup (entries (init Scenario.two_profiles))) as Hnd.
  { apply (bool_decide_unpack _). by vm_compute. }
  exact (proj1 (H Hnd) 1%Z).
Defined.

(** X15: when the file lists no profile twice, every key a session holds
    (queued, current or approved) is listed in the file; in particular an
    approved profile is never deleted, and a profile deleted by a reject
    is in no queue and on no approved list. *)
Theorem session_keys_are_listed file es u k :
  NoDup (entries (init file)) →
  k ∈ queue (session_of u (run es (init file)).1)
  ∨ current (session_of u (run es (init file)).1) = Some k
  ∨ k ∈ accepted (session_of u (run es (init file)).1) →
  k ∈ entries (run es (init file)).1.
Proof.
  intros Hnd Hk.
  destruct (consistent_run es (init file) (consistent_init file Hnd))
    as (_ & _ & Hl & _).
  destruct (Hl u) as (Hq & Hc & Ha).
  destruct Hk as [?|[?|?]]; auto.
Qed.

Lemma session_keys_are_listed_witness :
  Scenario.anna
    ∈ entries (run [Start 1 [1]; press_yes 1; Skip 1]
                 (init Scenario.two_profiles)).1.
Proof.
  apply (session_keys_are_listed Scenario.two_profiles
           [Start 1 [1]; press_yes 1; Skip 1] 1%Z Scenario.anna).
  - apply (bool_decide_unpack _). by vm_compute.
  - right; right. apply (bool_decide_unpack _). by vm_compute.
Defined.

(** * Further properties of the profile file *)

Section key_facts.

Implicit Types (s t l k url : string) (P : ascii → bool).

Lemma has_linebreak_any s : has_linebreak s = any_char is_linebreak s.
Proof. induction s as [|c s IH]; simpl; [done|]. by rewrite IH. Qed.

Lemma any_char_app P s t : any_char P (s +:+ t) = any_char P s || any_char P t.
Proof.
  induction s as [|c s IH]; [done|].
  rewrite app_cons_str. simpl. by rewrite IH, orb_assoc.
Qed.

Lemma any_char_lstrip P s : any_char P s = false → any_char P (lstrip s) = false.
Proof.
  induction s as [|c s IH]; simpl; [done|].
  intros [Hc Hs]%orb_false_iff. destruct (is_space c); [by apply IH|].
  simpl. by rewrite Hc, Hs.
Qed.

Lemma any_char_rstrip P s : any_char P s = false → any_char P (rstrip s) = false.
Proof.
  induction s as [|c s IH]; simpl; [done|].
  intros [Hc Hs]%orb_false_iff. destruct (_ && _); [done|].
  simpl. by rewrite Hc, IH.
Qed.

Lemma any_char_split_bar_0 P s :
  any_char P s = false → any_char P (split_bar_0 s) = false.
Proof.
  induction s as [|c s IH]; simpl; [done|].
  intros [Hc Hs]%orb_false_iff. destruct (Ascii.eqb c BAR); [done|].
  simpl. by rewrite Hc, IH.
Qed.

Lemma split_bar_0_no_bar s : any_char is_bar (split_bar_0 s) = false.
Proof.
  induction s as [|c s IH]; simpl; [done|].
  destruct (Ascii.eqb c BAR) eqn:E; [done|]. simpl. unfold is_bar at 1.
  by rewrite E, IH.
Qed.

Lemma rstrip_idem s : rstrip (rstrip s) = rstrip s.
Proof.
  induction s as [|c s IH]; simpl; [done|].
  destruct (is_space c && is_empty (rstrip s)) eqn:E; [done|].
  simpl. by rewrite IH, E.
Qed.

Lemma strip_idem s : strip (strip s) = strip s.
Proof.
  unfold strip. by rewrite <- (lstrip_rstrip (rstrip s)), rstrip_idem, lstrip_idem.
Qed.

(** The key of a line that [splitlines] returned is normalised unless it
    is empty. *)
Lemma line_url_normalised l :
  has_linebreak l = false → line_url l ≠ "" → normalised (line_url l).
Proof.
  intros Hl Hne. unfold normalised, line_url in *. split_and!; [done| | |].
  - apply strip_idem.
  - apply any_char_lstrip, any_char_rstrip, split_bar_0_no_bar.
  - rewrite has_linebreak_any in *.
    by apply any_char_lstrip, any_char_rstrip, any_char_split_bar_0.
Qed.

Lemma lstrip_pad pad s : all_space pad → lstrip (pad +:+ s) = lstrip s.
Proof.
  unfold all_space. induction pad as [|c pad IH]; [done|].
  simpl. intros [Hc Hp]%orb_false_iff.
  apply negb_false_iff in Hc. rewrite Hc. by apply IH.
Qed.

Lemma rstrip_pad pad s : all_space pad → rstrip (s +:+ pad) = rstrip s.
Proof.
  intros Hp. induction s as [|c s IH].
  - rewrite app_nil_str. simpl. unfold all_space in Hp.
    induction pad as [|c pad IH]; [done|].
    simpl in *. apply orb_false_iff in Hp as [Hc Hp].
    apply negb_false_iff in Hc. by rewrite Hc, IH.
  - rewrite app_cons_str. simpl. by rewrite IH.
Qed.

Lemma split_bar_0_app url rest :
  any_char is_bar url = false →
  split_bar_0 (url +:+ String BAR rest) = url.
Proof.
  induction url as [|c url IH]; simpl.
  - done.
  - intros [Hc Hu]%orb_false_iff.
    unfold is_bar in Hc. by rewrite Hc, IH.
Qed.

Lemma split_bar_0_plain s : any_char is_bar s = false → split_bar_0 s = s.
Proof.
  induction s as [|c s IH]; [done|].
  simpl. intros [Hc Hs]%orb_false_iff. unfold is_bar in Hc.
  by rewrite Hc, IH.
Qed.

Lemma all_space_no_bar pad : all_space pad → any_char is_bar pad = false.
Proof.
  unfold all_space. induction pad as [|c pad IH]; [done|].
  simpl. intros [Hc Hp]%orb_false_iff. rewrite IH by done.
  apply negb_false_iff in Hc. unfold is_bar.
  destruct (Ascii.eqb c BAR) eqn:E; [|done].
  apply bar_not_space in E. congruence.
Qed.

End key_facts.

(** X16: [load_profiles] returns exactly the keys of the lines of the
    file that are not empty and not retired; whatever the shuffle draws,
    the result is a permutation of the same list; a missing file gives
    the empty list. *)
Theorem load_profiles_exactly_the_lines rnd st :
  (∀ u, u ∈ load_profiles rnd st
        ↔ ∃ text l, profiles_file st = Some text ∧ l ∈ splitlines text
            ∧ line_url l = u ∧ u ≠ "" ∧ u ∉ reviewed_globally st)
  ∧ (∀ rnd', load_profiles rnd st ≡ₚ load_profiles rnd' st)
  ∧ (profiles_file st = None → load_profiles rnd st = []).
Proof.
  split_and!.
  - intros u. unfold load_profiles.
    destruct (profiles_file st) as [text|] eqn:E.
    + rewrite shuffle_perm, elem_of_load_result. split.
      * intros (? & ? & l & ? & ?). by exists text, l.
      * intros (text' & l & [= <-] & ? & ? & ? & ?). eauto.
    + split; [by intros ?%elem_of_nil|]. by intros (? & ? & [=] & _).
  - intros rnd'. by rewrite !load_profiles_perm.
  - unfold load_profiles. by intros ->.
Qed.

Lemma load_profiles_exactly_the_lines_witness :
  load_profiles [] (init None) = [].
Proof.
  exact (proj2 (proj2 (load_profiles_exactly_the_lines [] (init None)))
           eq_refl).
Defined.

(** X17: every key that [load_profiles] returns is normalised: it is not
    empty, has no whitespace at either end, no bar and no line boundary. *)
Theorem loaded_keys_normalised rnd st u :
  u ∈ load_profiles rnd st → normalised u.
Proof.
  unfold load_profiles. destruct (profiles_file st) as [text|];
    [|by intros ?%elem_of_nil].
  rewrite shuffle_perm, elem_of_load_result.
  intros (Hne & _ & l & Hl & <-). apply line_url_normalised; [|done].
  pose proof (splitlines_no_break text) as Hnb.
  rewrite Forall_forall in Hnb. by apply Hnb.
Qed.

Lemma loaded_keys_normalised_witness : normalised Scenario.anna.
Proof.
  apply (loaded_keys_normalised [] (init Scenario.one_profile)).
  apply (bool_decide_unpack _). by vm_compute.
Defined.

(** X18: the documented line format is read back.  A normalised key,
    padded with whitespace and followed or not by a bar and a label, is
    the key of its line for [remove_profile], and the one url that
    [load_profiles] takes from the line. *)
Theorem line_format_round_trip pad1 pad2 url label :
  all_space pad1 → all_space pad2 → normalised url →
  line_url (pad1 +:+ url +:+ pad2 +:+ String BAR label) = url
  ∧ line_url (pad1 +:+ url +:+ pad2) = url
  ∧ load_line ∅ (pad1 +:+ url +:+ pad2 +:+ String BAR label) = [url]
  ∧ load_line ∅ (pad1 +:+ url +:+ pad2) = [url].
Proof.
  intros H1 H2 (Hne & Hs & Hb & _).
  assert (line_url (pad1 +:+ url +:+ pad2 +:+ String BAR label) = url) as Ha.
  { unfold line_url.
    rewrite <- !app_assoc_str, split_bar_0_app.
    - rewrite app_assoc_str. unfold strip.
      by rewrite lstrip_rstrip, lstrip_pad, <- lstrip_rstrip, rstrip_pad.
    - rewrite !any_char_app, Hb, !all_space_no_bar by done. done. }
  assert (line_url (pad1 +:+ url +:+ pad2) = url) as Hb'.
  { unfold line_url. rewrite split_bar_0_plain.
    - unfold strip.
      by rewrite lstrip_rstrip, lstrip_pad, <- lstrip_rstrip, rstrip_pad.
    - rewrite !any_char_app, Hb, !all_space_no_bar by done. done. }
  split_and!; [done|done| |].
  - rewrite load_line_url, Ha. destruct url; [done|].
    simpl. by rewrite bool_decide_eq_true_2 by set_solver.
  - rewrite load_line_url, Hb'. destruct url; [done|].
    simpl. by rewrite bool_decide_eq_true_2 by set_solver.
Qed.

Lemma line_format_round_trip_witness :
  line_url ("  " +:+ Scenario.anna +:+ " " +:+ String BAR " Anna, 25")
  = Scenario.anna.
Proof.
  pose proof (line_format_round_trip "  " " " Scenario.anna " Anna, 25") as H.
  assert (normalised Scenario.anna) as Hn by (by split_and!).
  exact (proj1 (H eq_refl eq_refl Hn)).
Defined.

Lemma filter_comm {A} (P Q : A → Prop)
    `{!∀ x, Decision (P x)} `{!∀ x, Decision (Q x)} (l : list A) :
  filter P (filter Q l) = filter Q (filter P l).
Proof.
  induction l as [|x l IH]; [done|].
  rewrite !filter_cons.
  destruct (decide (Q x)), (decide (P x));
    rewrite ?filter_cons, ?decide_True, ?decide_False by done;
    by rewrite IH.
Qed.

Lemma remove_text_twice a b text :
  remove_text a (remove_text b text)
  = join_lf (filter (λ l, line_url l ≠ a)
               (filter (λ l, line_url l ≠ b) (splitlines text)))
    +:+ String LF "".
Proof.
  unfold remove_text at 1. unfold remove_text.
  rewrite splitlines_written by apply filter_no_break, splitlines_no_break.
  destruct (filter (λ l, line_url l ≠ b) (splitlines text)) as [|l ls]; [|done].
  rewrite filter_cons. by destruct (decide _).
Qed.

(** X19: removals of two keys commute: the file after both does not
    depend on the order in which they were rejected. *)
Theorem remove_profile_commutes a b st :
  remove_profile a (remove_profile b st) = remove_profile b (remove_profile a st).
Proof.
  unfold remove_profile. destruct (profiles_file st) as [text|] eqn:E; simpl.
  - unfold set_file. simpl. by rewrite !remove_text_twice, filter_comm.
  - by rewrite E.
Qed.

(** * Screen names and avatars *)

Section screen_name_facts.

Implicit Types (s t base name cur : string).

Local Abbreviation no_slash s := (any_char is_slash s = false).

Lemma is_empty_app_r s t : is_empty t = false → is_empty (s +:+ t) = false.
Proof. destruct s; [done|]. by rewrite app_cons_str. Qed.

Lemma rstrip_slash_all t : all_slash t → rstrip_slash t = "".
Proof.
  unfold all_slash. induction t as [|c t IH]; simpl; [done|].
  intros [Hc Ht]%orb_false_iff. apply negb_false_iff in Hc.
  by rewrite Hc, IH.
Qed.

Lemma rstrip_slash_pad s t : all_slash t → rstrip_slash (s +:+ t) = rstrip_slash s.
Proof.
  intros Ht. induction s as [|c s IH].
  - rewrite app_nil_str. by apply rstrip_slash_all.
  - rewrite app_cons_str. simpl. by rewrite IH.
Qed.

Lemma rstrip_slash_plain s : no_slash s → rstrip_slash s = s.
Proof.
  induction s as [|c s IH]; simpl; [done|].
  intros [Hc Hs]%orb_false_iff. by rewrite Hc, IH.
Qed.

Lemma rstrip_slash_keep s t :
  is_empty (rstrip_slash t) = false →
  rstrip_slash (s +:+ t) = s +:+ rstrip_slash t.
Proof.
  intros Ht. induction s as [|c s IH]; [done|].
  rewrite !app_cons_str. simpl. rewrite IH, is_empty_app_r by done.
  by rewrite andb_false_r.
Qed.

Lemma split_slash_from_plain cur s :
  no_slash s → split_slash_from cur s = [cur +:+ s].
Proof.
  revert cur. induction s as [|c s IH]; intros cur; simpl.
  - by rewrite app_empty_r.
  - intros [Hc Hs]%orb_false_iff. rewrite Hc, IH by done.
    by rewrite app_assoc_str.
Qed.

Lemma split_slash_from_last cur s : is_Some (last (split_slash_from cur s)).
Proof.
  revert cur. induction s as [|c s IH]; intros cur; simpl; [by eexists|].
  destruct (is_slash c); [|apply IH].
  rewrite last_cons. destruct (IH "") as [y ->]. by eexists.
Qed.

Lemma split_slash_from_after cur base rest :
  last (split_slash_from cur (base +:+ String SLASH rest))
  = last (split_slash_from "" rest).
Proof.
  revert cur. induction base as [|c base IH]; intros cur.
  - rewrite app_nil_str. simpl. rewrite last_cons.
    by destruct (split_slash_from_last "" rest) as [y ->].
  - rewrite app_cons_str. simpl. destruct (is_slash c); [|apply IH].
    rewrite last_cons, IH.
    by destruct (split_slash_from_last "" rest) as [y ->].
Qed.

Lemma split_slash_from_no_slash cur s :
  no_slash cur → Forall (λ p, no_slash p) (split_slash_from cur s).
Proof.
  revert cur. induction s as [|c s IH]; intros cur Hc; simpl.
  - by constructor.
  - destruct (is_slash c) eqn:E.
    + constructor; [done|]. by apply IH.
    + apply IH. rewrite any_char_app, Hc. simpl. by rewrite E.
Qed.

Lemma extract_screen_name_no_slash url : no_slash (extract_screen_name url).
Proof.
  unfold extract_screen_name.
  destruct (last _) as [p|] eqn:E; [|done]. simpl.
  pose proof (split_slash_from_no_slash "" (rstrip_slash url) eq_refl) as H.
  rewrite Forall_forall in H. apply H.
  rewrite last_Some in E. destruct E as [l' ->]. set_solver.
Qed.

Lemma extract_screen_name_plain name :
  no_slash name → extract_screen_name name = name.
Proof.
  intros Hn. unfold extract_screen_name.
  by rewrite rstrip_slash_plain, split_slash_from_plain.
Qed.

End screen_name_facts.

(** X20: the screen name of a profile url is its last path segment: for
    a non-empty [name] without slash, [base/name] gives [name], also when
    slashes follow it, and a url without any slash is its own screen
    name. *)
Theorem screen_name_of_profile_url base name trail :
  any_char is_slash name = false → name ≠ "" → all_slash trail →
  extract_screen_name (base +:+ String SLASH name +:+ trail) = name
  ∧ extract_screen_name (name +:+ trail) = name.
Proof.
  intros Hn Hne Ht. unfold extract_screen_name.
  assert (is_empty name = false) as He by by destruct name.
  split.
  - replace (base +:+ String SLASH name +:+ trail)
      with ((base +:+ String SLASH name) +:+ trail)
      by by rewrite app_assoc_str, app_cons_str.
    assert (rstrip_slash (String SLASH name) = String SLASH name) as Hr.
    { simpl. by rewrite rstrip_slash_plain, He. }
    rewrite rstrip_slash_pad by done.
    rewrite rstrip_slash_keep by by rewrite Hr.
    rewrite Hr, split_slash_from_after, split_slash_from_plain by done. done.
  - rewrite rstrip_slash_pad, rstrip_slash_plain by done.
    by rewrite split_slash_from_plain.
Qed.

Lemma screen_name_of_profile_url_witness :
  extract_screen_name "https://vk.com/anna//" = "anna".
Proof.
  pose proof (screen_name_of_profile_url "https://vk.com" "anna" "//") as H.
  refine (proj1 (H eq_refl _ eq_refl)). discriminate.
Defined.

(** X21: a screen name never contains a slash, so extracting it again
    changes nothing; a url that is empty or made of slashes only has the
    empty screen name. *)
Theorem screen_name_is_a_segment url :
  any_char is_slash (extract_screen_name url) = false
  ∧ extract_screen_name (extract_screen_name url) = extract_screen_name url
  ∧ (all_slash url → extract_screen_name url = "").
Proof.
  split_and!.
  - apply extract_screen_name_no_slash.
  - apply extract_screen_name_plain, extract_screen_name_no_slash.
  - intros Hu. unfold extract_screen_name. by rewrite rstrip_slash_all.
Qed.

Lemma screen_name_is_a_segment_witness : extract_screen_name "///" = "".
Proof. exact (proj2 (proj2 (screen_name_is_a_segment "///")) eq_refl). Defined.

Section avatar_facts.

Implicit Types (net : Network) (url tmp : string).

Lemma download_block_cases net d dest got calls :
  download_block net d dest = (got, calls) →
  (calls = [] ∧ got = false)
  ∨ ∃ img, calls = [Download img dest]
      ∧ got = download_image net img dest
      ∧ json_truthy (user_get "is_closed" d) = false
      ∧ img = py_or (user_get "photo_max_orig" d) (user_get "photo_max" d)
      ∧ json_truthy img = true.
Proof.
  unfold download_block.
  destruct (json_truthy (user_get "is_closed" d)) eqn:Hc; simpl.
  - intros [= <- <-]. by left.
  - destruct (json_truthy (py_or _ _)) eqn:Hi.
    + intros [= <- <-]. right. by eexists.
    + intros [= <- <-]. by left.
Qed.

End avatar_facts.

(** X22: without an active user there is no avatar: when the lookup
    returns nothing, an empty record or a record with a "deactivated"
    key, [get_avatar_path] returns no path, hands the lookup result back
    and attempts neither a download nor a screenshot. *)
Theorem no_avatar_without_active_user net url tmp user :
  get_vk_user net (extract_screen_name url) = Some user →
  user = None ∨ user = Some ∅
  ∨ (∃ d v, user = Some d ∧ d !! "deactivated" = Some v) →
  get_avatar_path net url tmp
  = (Some (None, user), [Lookup (extract_screen_name url)]).
Proof.
  intros Hu Hcase. unfold get_avatar_path. rewrite Hu.
  assert (no_active_user user = true) as ->; [|done].
  destruct Hcase as [->|[->|(d & v & -> & Hd)]]; simpl; [done|done|].
  rewrite (bool_decide_eq_true_2 (is_Some _)) by by eexists.
  by rewrite orb_true_r.
Qed.

Lemma no_avatar_without_active_user_witness :
  get_avatar_path
    {| get_vk_user := λ _, Some (Some {["deactivated" := JStr "banned"]});
       download_image := λ _ _, true;
       screenshot_avatar := λ _ _, true |}
    "https://vk.com/anna" "/tmp/x"
  = (Some (None, Some {["deactivated" := JStr "banned"]}), [Lookup "anna"]).
Proof.
  apply (no_avatar_without_active_user
    {| get_vk_user := λ _, Some (Some {["deactivated" := JStr "banned"]});
       download_image := λ _ _, true;
       screenshot_avatar := λ _ _, true |}
    "https://vk.com/anna" "/tmp/x"); [done|].
  right; right. eexists _, (JStr "banned"). split; [done|].
  apply lookup_singleton_eq.
Defined.

(** X23: [get_avatar_path] returns a path exactly when one of its
    attempts succeeded, and the path is then [avatar.jpg] in the given
    directory.  The lookup comes first and its result is handed back; the
    request raising is the only way to return nothing; a screenshot is
    taken only when no download succeeded, and nothing is tried after a
    success. *)
Theorem avatar_iff_attempt_succeeded net url tmp r calls :
  get_avatar_path net url tmp = (r, calls) →
  head calls = Some (Lookup (extract_screen_name url))
  ∧ (r = None ↔ get_vk_user net (extract_screen_name url) = None)
  ∧ (∀ p user, r = Some (p, user) →
       get_vk_user net (extract_screen_name url) = Some user
       ∧ (∀ dest, p = Some dest → dest = path_join tmp "avatar.jpg")
       ∧ (is_Some p ↔ ∃ a, a ∈ calls ∧ succeeded net a = true)
       ∧ (∀ a, a ∈ calls → succeeded net a = true → last calls = Some a)).
Proof.
  unfold get_avatar_path.
  destruct (get_vk_user net (extract_screen_name url)) as [user|] eqn:Hu.
  2:{ intros [= <- <-]. split_and!; [done|done|]. by intros p user [=]. }
  destruct (no_active_user user) eqn:Hact.
  { intros [= <- <-]. split_and!; [done|by split| ].
    intros p user' [= <- <-]. split_and!; [done|by intros dest [=]| |].
    - split; [by intros [? [=]]|].
      by intros (a & ->%list_elem_of_singleton & [=]).
    - by intros a ->%list_elem_of_singleton [=]. }
  destruct (download_block net (default ∅ user) (path_join tmp "avatar.jpg"))
    as [got calls1] eqn:Hd.
  apply download_block_cases in Hd.
  destruct got.
  - destruct Hd as [[_ [=]]|(img & -> & Hok & _)].
    intros [= <- <-]. split_and!; [done|by split|].
    intros p user' [= <- <-]. split_and!; [done|by intros dest [= <-]| |].
    + split; [intros _|by eexists].
      exists (Download img (path_join tmp "avatar.jpg")).
      split; [apply list_elem_of_further, list_elem_of_here|done].
    + intros a [->|[->|[]%elem_of_nil]%elem_of_cons]%elem_of_cons; [done|done].
  - destruct (screenshot_avatar net url (path_join tmp "avatar.jpg")) eqn:Hs;
      intros [= <- <-]; (split_and!; [done|by split|]);
      intros p user' [= <- <-]; (split_and!; [done| | |]).
    + by intros dest [= <-].
    + split; [intros _|by eexists].
      exists (Screenshot url (path_join tmp "avatar.jpg")).
      split; [|done]. apply list_elem_of_further, elem_of_app. right.
      apply list_elem_of_here.
    + intros a Ha Hsucc. rewrite app_comm_cons, last_snoc.
      destruct Hd as [[-> _]|(img & -> & Hok & _)]; simpl in Ha.
      * apply elem_of_cons in Ha as [->|Ha]; [done|].
        by apply list_elem_of_singleton in Ha as ->.
      * apply elem_of_cons in Ha as [->|Ha]; [done|].
        apply elem_of_cons in Ha as [->|Ha]; [simpl in Hsucc; congruence|].
        by apply list_elem_of_singleton in Ha as ->.
    + by intros dest [=].
    + split; [by intros [? [=]]|]. intros (a & Ha & Hsucc).
      destruct Hd as [[-> _]|(img & -> & Hok & _)]; simpl in Ha.
      * apply elem_of_cons in Ha as [->|Ha]; [done|].
        apply list_elem_of_singleton in Ha as ->. simpl in Hsucc. congruence.
      * apply elem_of_cons in Ha as [->|Ha]; [done|].
        apply elem_of_cons in Ha as [->|Ha]; [simpl in Hsucc; congruence|].
        apply list_elem_of_singleton in Ha as ->. simpl in Hsucc. congruence.
    + intros a Ha Hsucc. exfalso.
      destruct Hd as [[-> _]|(img & -> & Hok & _)]; simpl in Ha.
      * apply elem_of_cons in Ha as [->|Ha]; [done|].
        apply list_elem_of_singleton in Ha as ->. simpl in Hsucc. congruence.
      * apply elem_of_cons in Ha as [->|Ha]; [done|].
        apply elem_of_cons in Ha as [->|Ha]; [simpl in Hsucc; congruence|].
        apply list_elem_of_singleton in Ha as ->. simpl in Hsucc. congruence.
Qed.

Lemma avatar_iff_attempt_succeeded_witness :
  head (get_avatar_path AvatarScenario.net "https://vk.com/anna/" "/tmp/x").2
  = Some (Lookup "anna").
Proof.
  exact (proj1 (avatar_iff_attempt_succeeded AvatarScenario.net
    "https://vk.com/anna/" "/tmp/x"
    (Some (Some "/tmp/x/avatar.jpg", Some AvatarScenario.anna_record))
    [Lookup "anna";
     Download (JStr "https://img.example/anna.jpg") "/tmp/x/avatar.jpg";
     Screenshot "https://vk.com/anna/" "/tmp/x/avatar.jpg"]
    eq_refl)).
Defined.

(** X24: a download is attempted at most once, only for a profile that
    is not closed, and with [photo_max_orig] when that is set and
    [photo_max] otherwise, which must be set then. *)
Theorem download_only_for_open_profiles net url tmp r calls img dest :
  get_avatar_path net url tmp = (r, calls) →
  Download img dest ∈ calls →
  ∃ d, get_vk_user net (extract_screen_name url) = Some (Some d)
    ∧ json_truthy (user_get "is_closed" d) = false
    ∧ img = py_or (user_get "photo_max_orig" d) (user_get "photo_max" d)
    ∧ json_truthy img = true
    ∧ dest = path_join tmp "avatar.jpg"
    ∧ ∀ img' dest', Download img' dest' ∈ calls → img' = img ∧ dest' = dest.
Proof.
  unfold get_avatar_path.
  destruct (get_vk_user net (extract_screen_name url)) as [user|] eqn:Hu.
  2:{ intros [= <- <-] Hin. by apply list_elem_of_singleton in Hin. }
  destruct (no_active_user user) eqn:Hact.
  { intros [= <- <-] Hin. by apply list_elem_of_singleton in Hin. }
  destruct user as [d|]; [|done]. simpl.
  destruct (download_block net d (path_join tmp "avatar.jpg"))
    as [got calls1] eqn:Hd.
  apply download_block_cases in Hd.
  assert (∀ i t, Download i t ∈ Lookup (extract_screen_name url) :: calls1
              ++ [Screenshot url (path_join tmp "avatar.jpg")] →
            Download i t ∈ calls1) as Hsub.
  { intros i t [[=]|[?|[=]%list_elem_of_singleton]%elem_of_app]%elem_of_cons.
    done. }
  assert (∀ i t, Download i t ∈ Lookup (extract_screen_name url) :: calls1 →
            Download i t ∈ calls1) as Hsub'.
  { by intros i t [[=]|?]%elem_of_cons. }
  intros Hres Hin.
  assert (Download img dest ∈ calls1
          ∧ ∀ i t, Download i t ∈ calls → Download i t ∈ calls1) as [Hin1 Hall].
  { destruct got; [|destruct (screenshot_avatar _ _ _)];
      injection Hres as <- <-; auto. }
  destruct Hd as [[-> _]|(img0 & -> & _ & Hc & Himg & Ht)];
    [by apply elem_of_nil in Hin1|].
  apply list_elem_of_singleton in Hin1 as [= -> ->].
  exists d. split_and!; [done..|].
  intros img' dest' Hin'. apply Hall, list_elem_of_singleton in Hin'.
  by injection Hin' as -> ->.
Qed.

Lemma download_only_for_open_profiles_witness :
  ∃ d, get_vk_user AvatarScenario.net (extract_screen_name "https://vk.com/anna/")
       = Some (Some d)
    ∧ json_truthy (user_get "is_closed" d) = false.
Proof.
  destruct (download_only_for_open_profiles AvatarScenario.net
    "https://vk.com/anna/" "/tmp/x"
    (Some (Some "/tmp/x/avatar.jpg", Some AvatarScenario.anna_record))
    [Lookup "anna";
     Download (JStr "https://img.example/anna.jpg") "/tmp/x/avatar.jpg";
     Screenshot "https://vk.com/anna/" "/tmp/x/avatar.jpg"]
    (JStr "https://img.example/anna.jpg") "/tmp/x/avatar.jpg"
    eq_refl) as (d & H1 & H2 & _).
  - apply list_elem_of_further, list_elem_of_here.
  - by exists d.
Defined.

(** * The reporting commands *)

(** X25: [/status] and [/accepted] only read: apart from registering an
    empty session for a new user they leave every session, the
    retirement set and the file as they are, and they report the length
    of the user's queue, the number of approved profiles and of retired
    keys, and the approved list. *)
Theorem reports_are_read_only u st :
  (∀ v, session_of v (cmd_status u st).1 = session_of v st)
  ∧ reviewed_globally (cmd_status u st).1 = reviewed_globally st
  ∧ profiles_file (cmd_status u st).1 = profiles_file st
  ∧ (cmd_status u st).2
    = [StatusReport u (length (queue (session_of u st)))
         (length (accepted (session_of u st))) (size (reviewed_globally st))]
  ∧ (∀ v, session_of v (cmd_accepted u st).1 = session_of v st)
  ∧ reviewed_globally (cmd_accepted u st).1 = reviewed_globally st
  ∧ profiles_file (cmd_accepted u st).1 = profiles_file st
  ∧ (cmd_accepted u st).2 = [AcceptedReport u (accepted (session_of u st))].
Proof.
  unfold cmd_status, cmd_accepted. rewrite get_session_eq. simpl.
  split_and!; try done;
    intros v; rewrite session_of_set_session; by case_decide; subst.
Qed.
